(** * volume.tier.move: a shallow embedding of the tier-move shell command

    The development follows [weed/shell/command_volume_tier_move.go]:
    the candidate selector [collectVolumeIdsForTierChange], the
    per-volume coordinator [doVolumeTierMove], the migration executor
    [doMoveOneVolume] and the command entry point [Do].

    Go values are modelled as the code has them: [int64]/[uint64]/[uint32]
    as [Z] with the wrap-around written out, [float64] as the kernel's
    binary64 floats, Go maps as [gmap]/[gset] where only the keys matter
    and as association lists where the iteration order is observable.
    The slice of locations with the data nodes behind it is a store that
    every call reads and updates, a destination is a position in it, and
    every observable effect (writer output, standard output, RPCs,
    goroutine dispatch and join) is an entry of one event log that is
    threaded through the code. *)

From Stdlib Require Import ZArith String List Bool Lia Floats Uint63.
From Stdlib Require Import Permutation Sorted.
From stdpp Require Import gmap strings list.

Local Open Scope Z_scope.
Local Open Scope string_scope.

#[local] Set Warnings "-clear-no-such-hyp".

(** ** Go machine arithmetic *)

Module Go.

(** Two's-complement wrap-around of a signed 64-bit result. *)
Definition wrap64 (z : Z) : Z := (z + 2 ^ 63) mod 2 ^ 64 - 2 ^ 63.

(** [a + b] on [int64]. *)
Definition int64_add (a b : Z) : Z := wrap64 (a + b).

Definition int64_range (z : Z) : Prop := - 2 ^ 63 <= z < 2 ^ 63.

#[global] Instance int64_range_dec z : Decision (int64_range z).
Proof. unfold int64_range. apply _. Defined.

(** [float64(x)] for [x : uint64], round to nearest even.  Values below
    [2^63] convert directly; above, the value is halved with a sticky
    low bit (round to odd) and doubled again, which rounds the same. *)
Definition float64_of_uint64 (z : Z) : float :=
  if decide (z < 2 ^ 63) then PrimFloat.of_uint63 (Uint63.of_Z z)
  else
    (PrimFloat.of_uint63
       (Uint63.of_Z (Z.lor (Z.shiftr z 1) (Z.land z 1))) * 2)%float.

End Go.

(** ** Data model *)

(** [types.DiskType] is a string type; the hard-drive tier is [""] . *)
Definition DiskType := string.

(** [needle.VolumeId], a [uint32]. *)
Definition VolumeId := Z.

(** [master_pb.VolumeInformationMessage], the fields the command reads. *)
Record VolumeInformationMessage := {
  v_Id : Z;                  (* uint32 *)
  v_Size : Z;                (* uint64, bytes *)
  v_Collection : string;
  v_ModifiedAtSecond : Z;    (* int64, unix seconds *)
  v_DiskType : string
}.

(** [master_pb.DiskInfo]. *)
Record DiskInfo := {
  VolumeCount : Z;
  MaxVolumeCount : Z;
  VolumeInfos : list VolumeInformationMessage
}.

(** [master_pb.DataNodeInfo].  [DiskInfos] is a Go map keyed by disk type;
    it is kept as an association list whose order is the order in which
    [range] visits it, since the selector's early return makes that order
    observable. *)
Record DataNodeInfo := {
  dn_Id : string;
  DiskInfos : list (string * DiskInfo)
}.

Record RackInfo := {
  rack_Id : string;
  DataNodeInfos : list DataNodeInfo
}.

Record DataCenterInfo := {
  dc_Id : string;
  RackInfos : list RackInfo
}.

Record TopologyInfo := {
  DataCenterInfos : list DataCenterInfo
}.

(** [wdclient.Location]: one replica of a volume, by server address. *)
Record Location := { Url : string }.

(** The errors the command builds or passes on.  [fmt.Errorf] wrapping is
    kept structured instead of rendered to text. *)
Inductive error :=
| ErrBadPattern                                   (* filepath.ErrBadPattern *)
| ErrExternal (msg : string)                      (* a collaborator's error *)
| ErrSameTier (from to : DiskType)
| ErrVolumeNotFound (vid : VolumeId)
| ErrMarkReadonly (vid : VolumeId) (url : string) (e : error)
| ErrMove (vid : VolumeId) (url dst : string) (e : error).

(** Modelled from the spec: [eachDataNode] is not part of the excerpt; the
    spec describes a visitor over the snapshot's data nodes, which is the
    nested walk over data centers, racks and data nodes. *)
Definition eachDataNode (topo : TopologyInfo)
  : list (string * string * DataNodeInfo) :=
  dc ← DataCenterInfos topo;
  rack ← RackInfos dc;
  dn ← DataNodeInfos rack;
  [(dc_Id dc, rack_Id rack, dn)].

(** ** The candidate selector *)

Section Selector.

(** [types.ToDiskType], the disk-type classification of a label. *)
Variable ToDiskType : string -> DiskType.

(** [filepath.Match pattern name], returning [(matched, err)]. *)
Variable Match : string -> string -> bool * option error.

Variable volumeSizeLimitMb : Z.        (* uint64 *)
Variable sourceTier : DiskType.
Variable collectionPattern : string.
Variable fullPercentage : float.
Variable quietPeriod : Z.              (* time.Duration, nanoseconds *)
Variable nowUnixSeconds : Z.           (* time.Now().Unix() *)

(** [int64(quietPeriod / time.Second)]: Go's division truncates. *)
Definition quietSeconds : Z := Z.quot quietPeriod 1000000000.

(** Line 218, first conjunct. *)
Definition isQuiet (v : VolumeInformationMessage) : bool :=
  bool_decide (Go.int64_add (v_ModifiedAtSecond v) quietSeconds
               < nowUnixSeconds).

(** Line 218, second conjunct. *)
Definition onSourceTier (v : VolumeInformationMessage) : bool :=
  bool_decide (ToDiskType (v_DiskType v) = sourceTier).

(** Line 219: the fullness threshold in bytes, in [float64]. *)
Definition fullThreshold : float :=
  (fullPercentage / 100 * Go.float64_of_uint64 volumeSizeLimitMb
   * 1024 * 1024)%float.

Definition isFull (v : VolumeInformationMessage) : bool :=
  PrimFloat.ltb fullThreshold (Go.float64_of_uint64 (v_Size v)).

(** Lines 218-222: the body below the pattern check. *)
Definition markIfEligible (v : VolumeInformationMessage)
    (vidMap : gmap Z bool) : gmap Z bool :=
  if isQuiet v && onSourceTier v then
    if isFull v then <[v_Id v := true]> vidMap else vidMap
  else vidMap.

(** The inner loop, lines 206-223.  The result's second component tells
    whether the callback executed [return] (line 211). *)
Fixpoint rangeVolumeInfos (vs : list VolumeInformationMessage)
    (vidMap : gmap Z bool) : gmap Z bool * bool :=
  match vs with
  | [] => (vidMap, false)
  | v :: rest =>
      if decide (collectionPattern <> "") then
        let '(matched, err) := Match collectionPattern (v_Collection v) in
        match err with
        | Some _ => (vidMap, true)
        | None =>
            if negb matched then rangeVolumeInfos rest vidMap
            else rangeVolumeInfos rest (markIfEligible v vidMap)
        end
      else rangeVolumeInfos rest (markIfEligible v vidMap)
  end.

(** The outer loop, lines 205-224. *)
Fixpoint rangeDiskInfos (ds : list (string * DiskInfo))
    (vidMap : gmap Z bool) : gmap Z bool * bool :=
  match ds with
  | [] => (vidMap, false)
  | (_, diskInfo) :: rest =>
      let '(vidMap', returned) :=
        rangeVolumeInfos (VolumeInfos diskInfo) vidMap in
      if returned then (vidMap', true) else rangeDiskInfos rest vidMap'
  end.

(** The callback handed to [eachDataNode], lines 204-225. *)
Definition visitDataNode (dn : DataNodeInfo) (vidMap : gmap Z bool)
  : gmap Z bool :=
  fst (rangeDiskInfos (DiskInfos dn) vidMap).

Definition collectVidMap (topo : TopologyInfo) : gmap Z bool :=
  foldl (fun m '(_, _, dn) => visitDataNode dn m) ∅ (eachDataNode topo).

(** [collectVolumeIdsForTierChange], lines 196-232.  The keys of
    [vidMap] are appended in the map's iteration order, which Go leaves
    unspecified; the named result [err] is never assigned. *)
Definition collectVolumeIdsForTierChange (topo : TopologyInfo)
  : list VolumeId * option error :=
  ((map_to_list (collectVidMap topo)).*1, None).

(** *** Reading the loops as one scan

    [volumesOf dn] lists a data node's volumes in the order the nested
    loops reach them; [scanned] keeps the part of such a list that is
    reached before the matcher reports an error. *)

Definition matchErrs (v : VolumeInformationMessage) : bool :=
  bool_decide (collectionPattern <> "")
  && match (Match collectionPattern (v_Collection v)).2 with
     | Some _ => true
     | None => false
     end.

Definition patternAccepts (v : VolumeInformationMessage) : bool :=
  bool_decide (collectionPattern = "")
  || match Match collectionPattern (v_Collection v) with
     | (true, None) => true
     | _ => false
     end.

Definition eligible (v : VolumeInformationMessage) : bool :=
  patternAccepts v && isQuiet v && onSourceTier v && isFull v.

Definition volumesOf (dn : DataNodeInfo) : list VolumeInformationMessage :=
  d ← DiskInfos dn; VolumeInfos d.2.

Fixpoint scanned (vs : list VolumeInformationMessage)
  : list VolumeInformationMessage :=
  match vs with
  | [] => []
  | v :: rest => if matchErrs v then [] else v :: scanned rest
  end.

(** One volume's effect on [vidMap] when the scan reaches it. *)
Definition scanStep (vidMap : gmap Z bool) (v : VolumeInformationMessage)
  : gmap Z bool :=
  if eligible v then <[v_Id v := true]> vidMap else vidMap.

End Selector.

(** [v] is one of the volumes the snapshot lists on its data node [dn]. *)
Definition inSnapshot (topo : TopologyInfo) (dn : DataNodeInfo)
    (v : VolumeInformationMessage) : Prop :=
  (exists d r, (d, r, dn) ∈ eachDataNode topo) /\ v ∈ volumesOf dn.

(** No volume of the snapshot has a modification time so close to the
    end of the [int64] range that adding the quiet period overflows. *)
Definition timestampsFit (quietPeriod : Z) (topo : TopologyInfo) : bool :=
  forallb
    (fun '(_, _, dn) =>
       forallb
         (fun v => bool_decide (Go.int64_range
                                  (v_ModifiedAtSecond v
                                   + quietSeconds quietPeriod)))
         (volumesOf dn))
    (eachDataNode topo).


(** ** Effects of a run *)

(** The three mutating collaborator calls, with their arguments. *)
Inductive rpc :=
| MarkVolumeReadonly (vid : VolumeId) (locations : list Location)
| LiveMoveVolume (vid : VolumeId) (source target : string)
    (idleTimeout : Z) (diskType : string) (skipTailError : bool)
| DeleteVolume (vid : VolumeId) (server : string).

(** What the command prints, one constructor per format string. *)
Inductive message :=
| MsgCollect (tier : DiskType) (quiet : Z)
    (* "collect %s volumes quiet for: %d seconds\n" *)
| MsgTierMoveVolumes (vids : list VolumeId)
    (* "tier move volumes: %v\n" *)
| MsgTierMoveVolume (vid : VolumeId) (e : error)
    (* "tier move volume %d: %v\n" *)
| MsgMoving (vid : VolumeId) (source dst diskType : string)
    (* "moving volume %d from %s to %s with disk type %s ...\n" *)
| MsgMoveFailed (vid : VolumeId) (source dst : string) (e : error)
    (* "move volume %d %s => %s: %v\n" *)
| MsgCanNotFind (diskType : string) (vid : VolumeId)
    (* "can not find disk type %s for volume %d\n" *)
| MsgDeleteFailed (vid : VolumeId) (url : string) (e : error).
    (* "failed to delete volume %d on %s: %v\n" *)

Inductive event :=
| EvWriter (m : message)                       (* fmt.Fprintf(writer, ...) *)
| EvStdout (m : message)                       (* fmt.Printf(...) *)
| EvGetLocations (vid : VolumeId) (found : bool)
| EvRpc (c : rpc) (result : option error)
| EvGo (vid : VolumeId) (source dst : string)  (* wg.Add(1); go func(...) *)
| EvDone (vid : VolumeId)                      (* wg.Done() *)
| EvWait.                                      (* wg.Wait() returned *)

(** [location] of the shell package.  The data node object a location
    points to is kept inside it: every data node is referenced by exactly
    one location, and the slice of locations is the only path by which
    the command reaches the snapshot's nodes after selection. *)
Record location := {
  dc : string;
  rack : string;
  dataNode : DataNodeInfo
}.

(** The mutable objects of one run: the [allLocations] slice with the
    data nodes behind it (sorted in place and updated through [dst]),
    the [activeServers] set of the command struct, and the log of
    effects so far, oldest first. *)
Record World := {
  allLocations : list location;
  activeServers : gset string;
  log : list event
}.

(** How a call ends: it returns its [err], or the goroutine panics (an
    index out of range, a nil map entry), or it waits on the condition
    variable with nobody left to signal it. *)
Inductive outcome :=
| Returned (err : option error)
| Panicked
| Blocked.

(** The collaborators reached through [commandEnv].  A mutating call's
    result may depend on everything that happened before it. *)
Record CommandEnv := {
  confirmIsLocked : option error;
  collectTopologyInfo : error + TopologyInfo * Z;
  GetLocations : VolumeId -> list Location * bool;
  rpcResult : list event -> rpc -> option error;
  timeNowUnix : Z
}.

(** The flag values of [tierCommand] after a successful parse. *)
Record Flags := {
  flag_collectionPattern : string;
  flag_fullPercent : float;
  flag_quietFor : Z;
  flag_fromDiskType : string;
  flag_toDiskType : string;
  flag_force : bool
}.

Definition emit (e : event) (w : World) : World :=
  {| allLocations := allLocations w;
     activeServers := activeServers w;
     log := log w ++ [e] |}.

Definition call (env : CommandEnv) (c : rpc) (w : World)
  : World * option error :=
  let r := rpcResult env (log w) c in (emit (EvRpc c r) w, r).

(** Modelled from the spec: [capacityByFreeVolumeCount] is not part of
    the excerpt; the free capacity of a node for a tier is its maximum
    volume count minus its current volume count for that tier, and a node
    without the tier has none. *)
Definition lookupDisk (key : string) (ds : list (string * DiskInfo))
  : option DiskInfo :=
  snd <$> List.find (fun d => bool_decide (d.1 = key)) ds.

Definition capacityByFreeVolumeCount (diskType : DiskType)
    (info : DataNodeInfo) : Z :=
  match lookupDisk diskType (DiskInfos info) with
  | Some diskInfo => MaxVolumeCount diskInfo - VolumeCount diskInfo
  | None => 0
  end.

(** Modelled from the spec: [keepDataNodesSorted] is not part of the
    excerpt; it orders the locations by free capacity for the tier,
    largest first.  The spec leaves the order among equals open; this
    model keeps equals in their previous order. *)
Fixpoint insertByCapacity (diskType : DiskType) (l : location)
    (sorted : list location) : list location :=
  match sorted with
  | [] => [l]
  | l' :: rest =>
      if bool_decide (capacityByFreeVolumeCount diskType (dataNode l')
                      <= capacityByFreeVolumeCount diskType (dataNode l))
      then l :: l' :: rest
      else l' :: insertByCapacity diskType l rest
  end.

Definition keepDataNodesSorted (datanodes : list location)
    (diskType : DiskType) : list location :=
  foldr (insertByCapacity diskType) [] datanodes.

(** Modelled from the spec: [collectVolumeReplicaLocations] is not part
    of the excerpt; its second result holds one location per data node
    of the snapshot. *)
Definition collectVolumeReplicaLocations (topo : TopologyInfo)
  : list location :=
  (fun '(d, r, dn) => {| dc := d; rack := r; dataNode := dn |})
    <$> eachDataNode topo.

(** [isOneOf], lines 92-99. *)
Fixpoint isOneOf (server : string) (locations : list Location) : bool :=
  match locations with
  | [] => false
  | loc :: rest =>
      if decide (server = Url loc) then true else isOneOf server rest
  end.

(** Lines 119-124: the last location that is not the destination. *)
Definition pickSource (dstId : string) (locations : list Location) : string :=
  foldl (fun s loc => if decide (Url loc <> dstId) then Url loc else s)
    "" locations.

(** [DiskInfos[key].VolumeCount++]; [None] when the key is absent (the
    map yields a nil pointer). *)
Fixpoint incrVolumeCount (key : string) (ds : list (string * DiskInfo))
  : option (list (string * DiskInfo)) :=
  match ds with
  | [] => None
  | (k, d) :: rest =>
      if decide (k = key) then
        Some ((k, {| VolumeCount := VolumeCount d + 1;
                     MaxVolumeCount := MaxVolumeCount d;
                     VolumeInfos := VolumeInfos d |}) :: rest)
      else cons (k, d) <$> incrVolumeCount key rest
  end.

(** [dst.dataNode.DiskInfos[string(toDiskType)].VolumeCount++] for the
    location at position [dst] of the slice. *)
Definition bumpDestination (toDiskType : DiskType) (dst : nat) (w : World)
  : option World :=
  l ← allLocations w !! dst;
  ds ← incrVolumeCount toDiskType (DiskInfos (dataNode l));
  Some {| allLocations :=
            <[dst := {| dc := dc l; rack := rack l;
                        dataNode := {| dn_Id := dn_Id (dataNode l);
                                       DiskInfos := ds |} |}]>
              (allLocations w);
          activeServers := activeServers w;
          log := log w |}.

(** ** The migration executor and the coordinator *)

(** A dispatched goroutine: the arguments its closure captured. *)
Record task := {
  t_vid : VolumeId;
  t_locations : list Location;
  t_source : string;
  t_dst : nat
}.

Section Command.

Variable ToDiskType : string -> DiskType.

(** [DiskType.ReadableString]. *)
Variable ReadableString : DiskType -> string.

Variable Match : string -> string -> bool * option error.

(** [tierCommand.Parse], with the flag values it leaves behind. *)
Variable Parse : list string -> error + Flags.

Variable env : CommandEnv.

(** Lines 185-192: remove the remaining replicas. *)
Fixpoint removeRemaining (vid : VolumeId) (dstId source : string)
    (locations : list Location) (w : World) : World :=
  match locations with
  | [] => w
  | loc :: rest =>
      if decide (Url loc <> dstId /\ Url loc <> source) then
        let '(w1, r) := call env (DeleteVolume vid (Url loc)) w in
        let w2 := match r with
                  | Some e =>
                      emit (EvWriter (MsgDeleteFailed vid (Url loc) e)) w1
                  | None => w1
                  end in
        removeRemaining vid dstId source rest w2
      else removeRemaining vid dstId source rest w
  end.

(** [doMoveOneVolume], lines 172-194.  [dst] is the position of the
    destination in the [allLocations] slice. *)
Definition doMoveOneVolume (vid : VolumeId) (toDiskType : DiskType)
    (locations : list Location) (sourceVolumeServer : string) (dst : nat)
    (w : World) : World * outcome :=
  let '(w1, r1) := call env (MarkVolumeReadonly vid locations) w in
  match r1 with
  | Some e =>
      match locations with
      | loc0 :: _ =>
          (w1, Returned (Some (ErrMarkReadonly vid (Url loc0) e)))
      | [] => (w1, Panicked)
      end
  | None =>
      match allLocations w1 !! dst with
      | None => (w1, Panicked)
      | Some l =>
          let dstId := dn_Id (dataNode l) in
          let '(w2, r2) :=
            call env (LiveMoveVolume vid sourceVolumeServer dstId
                        5000000000 (ReadableString toDiskType) true) w1 in
          match r2 with
          | Some e =>
              match locations with
              | loc0 :: _ =>
                  (w2, Returned (Some (ErrMove vid (Url loc0) dstId e)))
              | [] => (w2, Panicked)
              end
          | None =>
              match bumpDestination toDiskType dst w2 with
              | None => (w2, Panicked)
              | Some w3 =>
                  (removeRemaining vid dstId sourceVolumeServer
                     locations w3,
                   Returned None)
              end
          end
      end
  end.

(** [delete(c.activeServers, a); delete(c.activeServers, b)]. *)
Definition release (a b : string) (w : World) : World :=
  {| allLocations := allLocations w;
     activeServers := activeServers w ∖ {[a]} ∖ {[b]};
     log := log w |}.

(** Lines 137-147, with the set empty of both servers. *)
Definition acquire (a b : string) (w : World) : World :=
  {| allLocations := allLocations w;
     activeServers := {[b]} ∪ ({[a]} ∪ activeServers w);
     log := log w |}.

(** The goroutine body, lines 150-158.  [None] when it panics. *)
Definition runTask (toDiskType : DiskType) (t : task) (w : World)
  : option World :=
  l ← allLocations w !! t_dst t;
  let dstId := dn_Id (dataNode l) in
  match doMoveOneVolume (t_vid t) toDiskType (t_locations t)
          (t_source t) (t_dst t) w with
  | (w1, Returned err) =>
      let w2 := match err with
                | Some e =>
                    emit (EvWriter
                            (MsgMoveFailed (t_vid t) (t_source t) dstId e))
                      w1
                | None => w1
                end in
      Some (emit (EvDone (t_vid t)) (release (t_source t) dstId w2))
  | (_, _) => None
  end.

(** [wg.Wait()], line 163: every goroutine added to the group runs to
    its [wg.Done()] before the call returns. *)
Fixpoint waitGroup (toDiskType : DiskType) (wg : list task) (w : World)
  : option World :=
  match wg with
  | [] => Some (emit EvWait w)
  | t :: rest =>
      w1 ← runTask toDiskType t w; waitGroup toDiskType rest w1
  end.

(** The state of the loop of lines 113-161 after some iterations. *)
Record loopState := {
  ls_world : World;
  ls_hasFoundTarget : bool;
  ls_wg : list task;
  ls_stuck : option outcome      (* [Some Panicked] or [Some Blocked] *)
}.

(** The loop over [allLocations], lines 113-161.  [i] is the position of
    the head of [dsts] in the slice. *)
Fixpoint rangeAllLocations (vid : VolumeId) (toDiskType : DiskType)
    (locations : list Location) (applyChanges : bool)
    (i : nat) (dsts : list location)
    (hasFoundTarget : bool) (wg : list task) (w : World) : loopState :=
  match dsts with
  | [] => {| ls_world := w; ls_hasFoundTarget := hasFoundTarget;
             ls_wg := wg; ls_stuck := None |}
  | dst :: rest =>
      let continue := rangeAllLocations vid toDiskType locations
                        applyChanges (S i) rest in
      let dstId := dn_Id (dataNode dst) in
      if bool_decide (capacityByFreeVolumeCount toDiskType (dataNode dst)
                      > 0) && negb hasFoundTarget
      then
        if isOneOf dstId locations then continue hasFoundTarget wg w
        else
          let sourceVolumeServer := pickSource dstId locations in
          if decide (sourceVolumeServer = "") then
            continue hasFoundTarget wg w
          else
            let w1 := emit (EvWriter (MsgMoving vid sourceVolumeServer
                                        dstId (ReadableString toDiskType)))
                        w in
            if negb applyChanges then
              (* line 133, then break *)
              match bumpDestination toDiskType i w1 with
              | Some w2 =>
                  {| ls_world := w2; ls_hasFoundTarget := true;
                     ls_wg := wg; ls_stuck := None |}
              | None =>
                  {| ls_world := w1; ls_hasFoundTarget := true;
                     ls_wg := wg; ls_stuck := Some Panicked |}
              end
            else if decide (sourceVolumeServer ∈ activeServers w1
                            \/ dstId ∈ activeServers w1) then
              (* no goroutine of this group runs yet, and those of
                 earlier groups are over: the wait never ends *)
              {| ls_world := w1; ls_hasFoundTarget := true; ls_wg := wg;
                 ls_stuck := Some Blocked |}
            else
              let w2 := acquire sourceVolumeServer dstId w1 in
              let w3 := emit (EvGo vid sourceVolumeServer dstId) w2 in
              let t := {| t_vid := vid; t_locations := locations;
                          t_source := sourceVolumeServer; t_dst := i |} in
              continue true (wg ++ [t])%list w3
      else continue hasFoundTarget wg w
  end.

Definition sortLocations (toDiskType : DiskType) (w : World) : World :=
  {| allLocations := keepDataNodesSorted (allLocations w) toDiskType;
     activeServers := activeServers w;
     log := log w |}.

(** [doVolumeTierMove], lines 101-170. *)
Definition doVolumeTierMove (vid : VolumeId) (toDiskType : DiskType)
    (applyChanges : bool) (w : World) : World * outcome :=
  let '(locations, found) := GetLocations env vid in
  let w0 := emit (EvGetLocations vid found) w in
  if negb found then (w0, Returned (Some (ErrVolumeNotFound vid)))
  else
    let w1 := sortLocations toDiskType w0 in
    let st := rangeAllLocations vid toDiskType locations applyChanges
                0 (allLocations w1) false [] w1 in
    match ls_stuck st with
    | Some stuck => (ls_world st, stuck)
    | None =>
        match waitGroup toDiskType (ls_wg st) (ls_world st) with
        | None => (ls_world st, Panicked)
        | Some w2 =>
            let w3 := if negb (ls_hasFoundTarget st) then
                        emit (EvWriter (MsgCanNotFind
                                          (ReadableString toDiskType) vid))
                          w2
                      else w2 in
            (w3, Returned None)
        end
    end.

(** The loop of [Do], lines 83-87. *)
Fixpoint rangeVolumeIds (volumeIds : list VolumeId) (toDiskType : DiskType)
    (applyChange : bool) (w : World) : World * outcome :=
  match volumeIds with
  | [] => (w, Returned None)
  | vid :: rest =>
      match doVolumeTierMove vid toDiskType applyChange w with
      | (w1, Returned err) =>
          let w2 := match err with
                    | Some e => emit (EvStdout (MsgTierMoveVolume vid e)) w1
                    | None => w1
                    end in
          rangeVolumeIds rest toDiskType applyChange w2
      | (w1, stuck) => (w1, stuck)
      end
  end.

(** [Do], lines 42-90.  The line the selector prints on standard
    output is logged here, before the selection.  The loop's last [err]
    is dropped by the final [return nil]; the loop of the model ends
    with [Returned None] for the same effect. *)
Definition Do (args : list string) : World * outcome :=
  let w := {| allLocations := []; activeServers := ∅; log := [] |} in
  match confirmIsLocked env with
  | Some err => (w, Returned (Some err))
  | None =>
      match Parse args with
      | inl _ => (w, Returned None)
      | inr flags =>
          let fromDiskType := ToDiskType (flag_fromDiskType flags) in
          let toDiskType := ToDiskType (flag_toDiskType flags) in
          if decide (fromDiskType = toDiskType) then
            (w, Returned (Some (ErrSameTier fromDiskType toDiskType)))
          else
            match collectTopologyInfo env with
            | inl err => (w, Returned (Some err))
            | inr (topologyInfo, volumeSizeLimitMb) =>
                let w1 :=
                  emit (EvStdout
                          (MsgCollect fromDiskType
                             (quietSeconds (flag_quietFor flags)))) w in
                let '(volumeIds, err) :=
                  collectVolumeIdsForTierChange ToDiskType Match
                    volumeSizeLimitMb fromDiskType
                    (flag_collectionPattern flags) (flag_fullPercent flags)
                    (flag_quietFor flags) (timeNowUnix env) topologyInfo in
                match err with
                | Some e => (w1, Returned (Some e))
                | None =>
                    let w2 :=
                      emit (EvStdout (MsgTierMoveVolumes volumeIds)) w1 in
                    let w3 :=
                      {| allLocations :=
                           collectVolumeReplicaLocations topologyInfo;
                         activeServers := activeServers w2;
                         log := log w2 |} in
                    rangeVolumeIds volumeIds toDiskType
                      (flag_force flags) w3
                end
            end
      end
  end.

End Command.

(** ** Reading a run *)

(** A location the loop of [doVolumeTierMove] accepts as destination for
    a volume held at [locations]: free capacity in the target tier, no
    replica of the volume, and a source to copy from. *)
Definition viable (toDiskType : DiskType) (locations : list Location)
    (dst : location) : bool :=
  bool_decide (capacityByFreeVolumeCount toDiskType (dataNode dst) > 0)
  && negb (isOneOf (dn_Id (dataNode dst)) locations)
  && bool_decide (pickSource (dn_Id (dataNode dst)) locations <> "").

(** [l'] is [l] with the volume count of its [toDiskType] disk one
    higher, and nothing else changed. *)
Definition bumped (toDiskType : DiskType) (l l' : location) : Prop :=
  dc l' = dc l /\ rack l' = rack l
  /\ dn_Id (dataNode l') = dn_Id (dataNode l)
  /\ exists before d after,
       DiskInfos (dataNode l) = (before ++ (toDiskType, d) :: after)%list
       /\ (toDiskType ∉ fst <$> before)
       /\ DiskInfos (dataNode l')
          = (before
             ++ (toDiskType,
                 {| VolumeCount := VolumeCount d + 1;
                    MaxVolumeCount := MaxVolumeCount d;
                    VolumeInfos := VolumeInfos d |}) :: after)%list.

(** An effect that reaches another server or starts a goroutine. *)
Definition isMutating (ev : event) : bool :=
  match ev with
  | EvRpc _ _ | EvGo _ _ _ => true
  | _ => false
  end.

(** The shape of what lines 185-192 add to the log for the replicas at
    [locations]: nothing for the destination and the source, one delete
    call for every other replica, followed by one line on the writer
    when the call failed. *)
Inductive cleanupTrace (vid : VolumeId) (dstId source : string)
  : list Location -> list event -> Prop :=
| cleanup_done : cleanupTrace vid dstId source [] []
| cleanup_kept loc rest evs :
    Url loc = dstId \/ Url loc = source ->
    cleanupTrace vid dstId source rest evs ->
    cleanupTrace vid dstId source (loc :: rest) evs
| cleanup_deleted loc rest evs :
    Url loc <> dstId -> Url loc <> source ->
    cleanupTrace vid dstId source rest evs ->
    cleanupTrace vid dstId source (loc :: rest)
      (EvRpc (DeleteVolume vid (Url loc)) None :: evs)
| cleanup_failed loc rest evs e :
    Url loc <> dstId -> Url loc <> source ->
    cleanupTrace vid dstId source rest evs ->
    cleanupTrace vid dstId source (loc :: rest)
      (EvRpc (DeleteVolume vid (Url loc)) (Some e)
       :: EvWriter (MsgDeleteFailed vid (Url loc) e) :: evs).

(** The servers on which a delete call for [vid] failed. *)
Definition failedDeletes (vid : VolumeId) (evs : list event) : list string :=
  omap (fun ev =>
          match ev with
          | EvRpc (DeleteVolume v url) (Some _) =>
              if decide (v = vid) then Some url else None
          | _ => None
          end) evs.

(** Modelled from the spec: the volume servers' side of the calls is not
    part of the excerpt.  By the spec a successful live copy leaves the
    volume at both source and destination, a successful delete removes
    the replica from the one server it names, and a failed call changes
    nothing.  [replicasAfter vid holders evs] is the set of servers that
    hold volume [vid] after the calls logged in [evs], starting from
    [holders]. *)
Definition applyEffect (vid : VolumeId) (holders : gset string) (ev : event)
  : gset string :=
  match ev with
  | EvRpc (LiveMoveVolume v _ target _ _ _) None =>
      if decide (v = vid) then {[target]} ∪ holders else holders
  | EvRpc (DeleteVolume v server) None =>
      if decide (v = vid) then holders ∖ {[server]} else holders
  | _ => holders
  end.

Definition replicasAfter (vid : VolumeId) (holders : gset string)
    (evs : list event) : gset string :=
  foldl (applyEffect vid) holders evs.

(** [a] may stand before [b] in the ranking for [diskType]. *)
Definition ranksBefore (diskType : DiskType) (a b : location) : Prop :=
  capacityByFreeVolumeCount diskType (dataNode b)
  <= capacityByFreeVolumeCount diskType (dataNode a).

(** The world after [doVolumeTierMove] has looked the volume up, sorted
    the locations and announced the move (line 128). *)
Definition announced (ReadableString : DiskType -> string) (vid : VolumeId)
    (toDiskType : DiskType) (source dstId : string) (w : World) : World :=
  emit (EvWriter (MsgMoving vid source dstId (ReadableString toDiskType)))
    (sortLocations toDiskType (emit (EvGetLocations vid true) w)).

(** The world when the goroutine of lines 150-158 has been started. *)
Definition dispatched (ReadableString : DiskType -> string) (vid : VolumeId)
    (toDiskType : DiskType) (source dstId : string) (w : World) : World :=
  emit (EvGo vid source dstId)
    (acquire source dstId
       (announced ReadableString vid toDiskType source dstId w)).

(** The log after the read-only mark and the copy both succeeded. *)
Definition copied (ReadableString : DiskType -> string) (vid : VolumeId)
    (toDiskType : DiskType) (locations : list Location)
    (source dstId : string) (w : World) : list event :=
  (log w
   ++ [EvRpc (MarkVolumeReadonly vid locations) None;
       EvRpc (LiveMoveVolume vid source dstId 5000000000
                (ReadableString toDiskType) true) None])%list.

(** The two calls before the cleanup succeed. *)
Definition copySucceeds (ReadableString : DiskType -> string)
    (env : CommandEnv) (vid : VolumeId) (toDiskType : DiskType)
    (locations : list Location) (source dstId : string) (w : World) : Prop :=
  rpcResult env (log w) (MarkVolumeReadonly vid locations) = None
  /\ rpcResult env
       (log w ++ [EvRpc (MarkVolumeReadonly vid locations) None])
       (LiveMoveVolume vid source dstId 5000000000
          (ReadableString toDiskType) true) = None.

(** The lookups of volume locations recorded in a log, in order. *)
Definition lookupsOf (evs : list event) : list (VolumeId * bool) :=
  omap (fun ev =>
          match ev with
          | EvGetLocations vid found => Some (vid, found)
          | _ => None
          end) evs.

(** The goroutines started, and the live copies called, in a log. *)
Definition isDispatch (ev : event) : bool :=
  match ev with
  | EvGo _ _ _ => true
  | _ => false
  end.

Definition isCopy (ev : event) : bool :=
  match ev with
  | EvRpc (LiveMoveVolume _ _ _ _ _ _) _ => true
  | _ => false
  end.

Definition countEvents (p : event -> bool) (evs : list event) : nat :=
  length (List.filter p evs).

(** What a goroutine of the command adds to the log: calls, lines on the
    writer, and its [wg.Done()]. *)
Definition isTaskEvent (ev : event) : bool :=
  match ev with
  | EvRpc _ _ | EvWriter _ | EvDone _ => true
  | _ => false
  end.

(** The lines on the writer that tell what is planned for a volume: the
    move it gets (line 128), or that no disk was found for it (line
    166). *)
Definition isAnnouncement (ev : event) : bool :=
  match ev with
  | EvWriter (MsgMoving _ _ _ _) | EvWriter (MsgCanNotFind _ _) => true
  | _ => false
  end.

Definition announcementsOf (evs : list event) : list event :=
  List.filter isAnnouncement evs.

(** Following the goroutines through a log.  The state tells whether a
    goroutine is alive; it is lost ([None]) when a goroutine starts, a
    volume is looked up or [wg.Wait()] returns while one is alive, and
    when [wg.Done()] is reached with none alive. *)
Definition flightStep (alive : option bool) (ev : event) : option bool :=
  match alive, ev with
  | None, _ => None
  | Some false, EvGo _ _ _ => Some true
  | Some true, EvGo _ _ _ => None
  | Some true, EvDone _ => Some false
  | Some false, EvDone _ => None
  | Some true, EvGetLocations _ _ => None
  | Some true, EvWait => None
  | Some a, _ => Some a
  end.

Definition inFlight (evs : list event) : option bool :=
  foldl flightStep (Some false) evs.

(** ** Concrete collaborators for the examples *)

Module Sample.

(** A classification that agrees with the command's on lower-case
    labels: the hard-drive tier is the empty label. *)
Definition ToDiskType (vt : string) : DiskType :=
  if decide (vt = "hdd") then "" else vt.

Definition ReadableString (diskType : DiskType) : string :=
  if decide (diskType = "") then "hdd" else diskType.

(** A matcher for the patterns of the examples: the unterminated class
    is malformed, a lone star accepts every name, any other pattern is
    taken literally. *)
Definition Match (pattern name : string) : bool * option error :=
  if decide (pattern = "[") then (false, Some ErrBadPattern)
  else if decide (pattern = "*") then (true, None)
  else (bool_decide (pattern = name), None).

Definition volume (id size : Z) (collection : string) (modified : Z)
    (diskType : string) : VolumeInformationMessage :=
  {| v_Id := id; v_Size := size; v_Collection := collection;
     v_ModifiedAtSecond := modified; v_DiskType := diskType |}.

Definition disk (count max : Z) (vs : list VolumeInformationMessage)
  : DiskInfo :=
  {| VolumeCount := count; MaxVolumeCount := max; VolumeInfos := vs |}.

Definition node (id : string) (ds : list (string * DiskInfo))
  : DataNodeInfo :=
  {| dn_Id := id; DiskInfos := ds |}.

(** One data center with one rack holding the given data nodes. *)
Definition topology (dns : list DataNodeInfo) : TopologyInfo :=
  {| DataCenterInfos :=
       [{| dc_Id := "dc1";
           RackInfos := [{| rack_Id := "r1"; DataNodeInfos := dns |}] |}] |}.

Definition MB : Z := 1024 * 1024.
Definition now : Z := 1700000000.
Definition hour : Z := 3600 * 1000000000.
Definition day : Z := 86400.

(** The scenario of the spec: a 30000 MB limit, [fullPercent=95],
    [quietFor=1h], moving from the hard-drive tier. *)
Definition select (topo : TopologyInfo) : list VolumeId * option error :=
  collectVolumeIdsForTierChange ToDiskType Match 30000 "" "" 95 hour now
    topo.

(** A hard-drive volume of collection [pics] filled to [percent] of the
    limit and last written [age] seconds ago. *)
Definition aged (id percent age : Z) : VolumeInformationMessage :=
  volume id (30000 * MB * percent / 100) "pics" (now - age) "hdd".

Definition holding (id : string) (vs : list VolumeInformationMessage)
  : DataNodeInfo :=
  node id [("", disk (Z.of_nat (length vs)) 10 vs)].

(** Volume 7 with a replica on each of two data nodes. *)
Definition twoReplicas : TopologyInfo :=
  topology [holding "a" [aged 7 96 (2 * day)];
            holding "b" [aged 7 96 (2 * day)]].

(** Volume 7 last written exactly one hour ago. *)
Definition boundary : TopologyInfo :=
  topology [holding "a" [aged 7 96 3600]].

(** A cluster for whole runs: hard-drive servers [a] and [b] hold
    volumes 1 and 2, servers [c] and [d] offer empty solid-state disks. *)
Definition cluster : TopologyInfo :=
  topology [node "a" [("", disk 2 10 [aged 1 96 (2 * day);
                                      aged 2 96 (2 * day)])];
            node "b" [("", disk 1 10 [aged 1 96 (2 * day)])];
            node "c" [("ssd", disk 0 5 [])];
            node "d" [("ssd", disk 0 7 [])]].

Definition at_ (urls : list string) : list Location :=
  (fun u => {| Url := u |}) <$> urls.

(** The master knows volume 1 on [a] and [b], volume 2 on [a]. *)
Definition locate (vid : VolumeId) : list Location * bool :=
  if decide (vid = 1) then (at_ ["a"; "b"], true)
  else if decide (vid = 2) then (at_ ["a"], true)
  else ([], false).

Definition flags (force : bool) : Flags :=
  {| flag_collectionPattern := ""; flag_fullPercent := 95;
     flag_quietFor := hour; flag_fromDiskType := "hdd";
     flag_toDiskType := "ssd"; flag_force := force |}.

Definition allSucceed (history : list event) (c : rpc) : option error := None.

(** The read-only mark of volume [vid] is refused. *)
Definition markFails (vid : VolumeId) (history : list event) (c : rpc)
  : option error :=
  match c with
  | MarkVolumeReadonly v _ =>
      if decide (v = vid) then Some (ErrExternal "volume is busy") else None
  | _ => None
  end.

(** The delete on [server] is refused. *)
Definition deleteFails (server : string) (history : list event) (c : rpc)
  : option error :=
  match c with
  | DeleteVolume _ s =>
      if decide (s = server) then Some (ErrExternal "connection refused")
      else None
  | _ => None
  end.

(** The live copy of volume [vid] fails. *)
Definition copyFails (vid : VolumeId) (history : list event) (c : rpc)
  : option error :=
  match c with
  | LiveMoveVolume v _ _ _ _ _ =>
      if decide (v = vid) then Some (ErrExternal "copy timed out") else None
  | _ => None
  end.

(** The master reports every volume as known but gives no address. *)
Definition noAddress : CommandEnv :=
  {| confirmIsLocked := None;
     collectTopologyInfo := inl (ErrExternal "unused");
     GetLocations := fun _ => ([], true);
     rpcResult := fun _ _ => None;
     timeNowUnix := 0 |}.

Definition environment (results : list event -> rpc -> option error)
  : CommandEnv :=
  {| confirmIsLocked := None;
     collectTopologyInfo := inr (cluster, 30000);
     GetLocations := locate;
     rpcResult := results;
     timeNowUnix := now |}.

(** [volume.tier.move -fromDiskType=hdd -toDiskType=ssd -quietFor=1h],
    with or without [-force]. *)
Definition run (force : bool) (results : list event -> rpc -> option error)
  : World * outcome :=
  Do ToDiskType ReadableString Match (fun _ => inr (flags force))
    (environment results) [].

(** The flag set rejects the arguments. *)
Definition rejectFlags (args : list string) : error + Flags :=
  inl (ErrExternal "flag provided but not defined").

Definition idle : World :=
  {| allLocations := []; activeServers := ∅; log := [] |}.

(** The world at the start of the moves. *)
Definition start : World :=
  {| allLocations := collectVolumeReplicaLocations cluster;
     activeServers := ∅;
     log := [] |}.

Definition server (id : string) (ds : list (string * DiskInfo)) : location :=
  {| dc := "dc1"; rack := "r1"; dataNode := node id ds |}.

(** One solid-state server [d], about to receive volume 3, which is held
    by [a], [b] and [c]. *)
Definition beforeMove : World :=
  {| allLocations :=
       [{| dc := "dc1"; rack := "r1";
           dataNode := node "d" [("ssd", disk 0 7 [])] |}];
     activeServers := ∅;
     log := [] |}.

End Sample.

(** * Properties *)

(** ** Machine arithmetic *)

Lemma wrap64_id z : Go.int64_range z -> Go.wrap64 z = z.
Proof.
  unfold Go.int64_range, Go.wrap64. intros Hz.
  rewrite Z.mod_small; lia.
Qed.

(** Truncated division by a second: the quotient's next second lies
    strictly above the duration. *)
Lemma quietSeconds_bound quietPeriod :
  quietPeriod < (quietSeconds quietPeriod + 1) * 1000000000.
Proof.
  unfold quietSeconds.
  pose proof (Z.quot_rem' quietPeriod 1000000000) as Hqr.
  destruct (Z.le_gt_cases 0 quietPeriod) as [Hpos|Hneg].
  - pose proof (Z.rem_bound_pos quietPeriod 1000000000 Hpos ltac:(lia)). lia.
  - pose proof (Z.rem_bound_pos_neg quietPeriod 1000000000 ltac:(lia)
                  ltac:(lia)). lia.
Qed.

(** ** The selector *)

Ltac unfold_criteria :=
  unfold scanStep, markIfEligible, eligible, patternAccepts, matchErrs.
Ltac unfold_criteria_in H :=
  unfold scanStep, markIfEligible, eligible, patternAccepts, matchErrs in H.
Ltac unfold_isQuiet := unfold isQuiet, Go.int64_add.
Ltac unfold_selector :=
  unfold collectVolumeIdsForTierChange, collectVidMap, visitDataNode.
Ltac step_scanned := cbn [app scanned existsb].
Ltac step_rangeDiskInfos := cbn [rangeDiskInfos].
Ltac unfold_scanStep := unfold scanStep.
Ltac unfold_eligible := unfold eligible.

Section SelectorFacts.

Variable ToDiskType : string -> DiskType.
Variable Match : string -> string -> bool * option error.
Variable volumeSizeLimitMb : Z.
Variable sourceTier : DiskType.
Variable collectionPattern : string.
Variable fullPercentage : float.
Variable quietPeriod : Z.
Variable nowUnixSeconds : Z.

Local Abbreviation matchErrs := (matchErrs Match collectionPattern).
Local Abbreviation patternAccepts := (patternAccepts Match collectionPattern).
Local Abbreviation isQuiet := (isQuiet quietPeriod nowUnixSeconds).
Local Abbreviation onSourceTier := (onSourceTier ToDiskType sourceTier).
Local Abbreviation isFull := (isFull volumeSizeLimitMb fullPercentage).
Local Abbreviation eligible :=
  (eligible ToDiskType Match volumeSizeLimitMb sourceTier collectionPattern
     fullPercentage quietPeriod nowUnixSeconds).
Local Abbreviation markIfEligible :=
  (markIfEligible ToDiskType volumeSizeLimitMb sourceTier fullPercentage
     quietPeriod nowUnixSeconds).
Local Abbreviation scanStep :=
  (scanStep ToDiskType Match volumeSizeLimitMb sourceTier collectionPattern
     fullPercentage quietPeriod nowUnixSeconds).
Local Abbreviation scanned := (scanned Match collectionPattern).
Local Abbreviation rangeVolumeInfos :=
  (rangeVolumeInfos ToDiskType Match volumeSizeLimitMb sourceTier
     collectionPattern fullPercentage quietPeriod nowUnixSeconds).
Local Abbreviation rangeDiskInfos :=
  (rangeDiskInfos ToDiskType Match volumeSizeLimitMb sourceTier
     collectionPattern fullPercentage quietPeriod nowUnixSeconds).
Local Abbreviation visitDataNode :=
  (visitDataNode ToDiskType Match volumeSizeLimitMb sourceTier
     collectionPattern fullPercentage quietPeriod nowUnixSeconds).
Local Abbreviation collectVidMap :=
  (collectVidMap ToDiskType Match volumeSizeLimitMb sourceTier
     collectionPattern fullPercentage quietPeriod nowUnixSeconds).
Local Abbreviation collectVolumeIdsForTierChange :=
  (collectVolumeIdsForTierChange ToDiskType Match volumeSizeLimitMb
     sourceTier collectionPattern fullPercentage quietPeriod nowUnixSeconds).

Lemma eligible_no_error v : eligible v = true -> matchErrs v = false.
Proof.
  unfold_criteria.
  intros H. repeat (apply andb_prop in H as [H _]).
  apply orb_prop in H as [H|H].
  - apply bool_decide_eq_true in H.
    rewrite bool_decide_eq_false_2; [done | tauto].
  - destruct (Match collectionPattern (v_Collection v)) as [[] []];
      simpl in *; try discriminate. apply andb_false_r.
Qed.

(** One iteration of the inner loop that does not [return] changes
    [vidMap] as [scanStep] does. *)
Lemma rangeVolumeInfos_cons v rest m :
  rangeVolumeInfos (v :: rest) m
  = if matchErrs v then (m, true)
    else rangeVolumeInfos rest (scanStep m v).
Proof.
  simpl. unfold_criteria.
  destruct (decide (collectionPattern <> "")) as [Hp|Hp].
  - rewrite (bool_decide_eq_true_2 _ Hp).
    rewrite (bool_decide_eq_false_2 (collectionPattern = "") Hp). simpl.
    destruct (Match collectionPattern (v_Collection v)) as [[] []]; simpl;
      try reflexivity.
    by destruct (_ && _), (isFull v).
  - rewrite (bool_decide_eq_false_2 _ Hp).
    rewrite (bool_decide_eq_true_2 (collectionPattern = ""))
      by (by destruct (decide (collectionPattern = ""))).
    simpl. by destruct (_ && _), (isFull v).
Qed.

Lemma rangeVolumeInfos_scan vs m :
  rangeVolumeInfos vs m
  = (foldl scanStep m (scanned vs), existsb matchErrs vs).
Proof.
  revert m. induction vs as [|v rest IH]; intros m; [done|].
  rewrite rangeVolumeInfos_cons. step_scanned.
  destruct (matchErrs v); [done|]. by rewrite IH.
Qed.

Lemma scanned_app a b :
  scanned (a ++ b)
  = if existsb matchErrs a then scanned a else (a ++ scanned b)%list.
Proof.
  induction a as [|v a IH]; [done|]. step_scanned.
  destruct (matchErrs v); [done|]. rewrite IH. simpl.
  by destruct (existsb _ a).
Qed.

Lemma scanned_no_error vs : existsb matchErrs vs = false -> scanned vs = vs.
Proof.
  induction vs as [|v rest IH]; [done|]. step_scanned.
  intros [Hv Hrest]%orb_false_elim. by rewrite Hv, IH.
Qed.

Lemma rangeDiskInfos_scan ds m :
  rangeDiskInfos ds m
  = (foldl scanStep m (scanned (d ← ds; VolumeInfos d.2)),
     existsb matchErrs (d ← ds; VolumeInfos d.2)).
Proof.
  revert m. induction ds as [|[k d] rest IH]; intros m; [done|].
  step_rangeDiskInfos. rewrite rangeVolumeInfos_scan.
  rewrite bind_cons, scanned_app, existsb_app. cbn [snd].
  destruct (existsb matchErrs (VolumeInfos d)) eqn:E; [done|].
  rewrite IH, foldl_app, (scanned_no_error _ E). done.
Qed.

Lemma visitDataNode_scan dn m :
  visitDataNode dn m = foldl scanStep m (scanned (volumesOf dn)).
Proof.
  unfold_selector. by rewrite rangeDiskInfos_scan.
Qed.

Lemma scanned_prefix vs : exists post, vs = (scanned vs ++ post)%list.
Proof.
  induction vs as [|v rest [post IH]]; [by exists []|].
  step_scanned. destruct (matchErrs v).
  - by eexists.
  - exists post. simpl. by rewrite <- IH.
Qed.

Lemma scanned_clean vs : Forall (fun v => matchErrs v = false) (scanned vs).
Proof.
  induction vs as [|v rest IH]; step_scanned; [constructor|].
  destruct (matchErrs v) eqn:E; by constructor.
Qed.

Lemma scanned_all vs :
  Forall (fun v => matchErrs v = false) vs -> scanned vs = vs.
Proof.
  induction 1 as [|v rest Hv _ IH]; [done|]. step_scanned.
  by rewrite Hv, IH.
Qed.

(** Cutting a scan at a volume on which the matcher fails. *)
Lemma scanned_cut pre v post :
  matchErrs v = true -> scanned (pre ++ v :: post) = scanned pre.
Proof.
  intros Hv. induction pre as [|u pre IH]; step_scanned.
  - by rewrite Hv.
  - destruct (matchErrs u); [done|]. by rewrite IH.
Qed.

(** *** Which keys the scan leaves in [vidMap] *)

Lemma scanStep_lookup m v k :
  is_Some (scanStep m v !! k)
  <-> is_Some (m !! k) \/ (v_Id v = k /\ eligible v = true).
Proof.
  unfold_scanStep. destruct (eligible v).
  - rewrite lookup_insert_is_Some. destruct (decide (v_Id v = k)); naive_solver.
  - naive_solver.
Qed.

Lemma foldl_scanStep_lookup l m k :
  is_Some (foldl scanStep m l !! k)
  <-> is_Some (m !! k)
      \/ exists v, v ∈ l /\ v_Id v = k /\ eligible v = true.
Proof.
  revert m. induction l as [|u l IH]; intros m; simpl.
  - set_solver.
  - rewrite IH, scanStep_lookup. set_solver.
Qed.

Lemma visitNodes_lookup (nodes : list (string * string * DataNodeInfo)) m k :
  is_Some (foldl (fun m '(_, _, dn) => visitDataNode dn m) m nodes !! k)
  <-> is_Some (m !! k)
      \/ exists d r dn v,
           (d, r, dn) ∈ nodes /\ v ∈ scanned (volumesOf dn)
           /\ v_Id v = k /\ eligible v = true.
Proof.
  revert m. induction nodes as [|[[d r] dn] nodes IH]; intros m; simpl.
  - set_solver.
  - rewrite IH, visitDataNode_scan, foldl_scanStep_lookup.
    split.
    + intros [[?|(v & ? & ? & ?)]|(d' & r' & dn' & v & ? & ?)].
      * by left.
      * right. exists d, r, dn, v. set_solver.
      * right. exists d', r', dn', v. set_solver.
    + intros [?|(d' & r' & dn' & v & [Heq|?]%elem_of_cons & ?)].
      * by left; left.
      * inversion Heq; subst. left; right. by exists v.
      * right. by exists d', r', dn', v.
Qed.

Lemma keys_of_map (m : gmap Z bool) k :
  k ∈ (map_to_list m).*1 <-> is_Some (m !! k).
Proof.
  rewrite list_elem_of_fmap. split.
  - intros [[k' b] [-> Hin]]. apply elem_of_map_to_list in Hin. by exists b.
  - intros [b Hb]. exists (k, b). split; [done|].
    by apply elem_of_map_to_list.
Qed.

(** The selector returns exactly the ids of the eligible volumes that
    the scan of some data node reaches. *)
Lemma selected_iff topo vid :
  vid ∈ (collectVolumeIdsForTierChange topo).1
  <-> exists d r dn v,
        (d, r, dn) ∈ eachDataNode topo /\ v ∈ scanned (volumesOf dn)
        /\ v_Id v = vid /\ eligible v = true.
Proof.
  unfold_selector. cbn [fst].
  rewrite keys_of_map.
  rewrite visitNodes_lookup, lookup_empty.
  split; [intros [[? ?]|?]; [done|done] | by right].
Qed.

Lemma scanned_elem vs v : v ∈ scanned vs -> v ∈ vs.
Proof.
  destruct (scanned_prefix vs) as [post Hpost]. rewrite Hpost at 2.
  set_solver.
Qed.

Lemma timestampsFit_elim topo dn v :
  timestampsFit quietPeriod topo = true -> inSnapshot topo dn v ->
  Go.int64_range (v_ModifiedAtSecond v + quietSeconds quietPeriod).
Proof.
  unfold timestampsFit. rewrite forallb_forall.
  intros Hfit [(d & r & Hdn) Hv].
  apply list_elem_of_In, Hfit in Hdn. cbn in Hdn.
  rewrite forallb_forall in Hdn.
  apply list_elem_of_In, Hdn in Hv. by apply bool_decide_eq_true in Hv.
Qed.

Lemma isQuiet_exact v :
  Go.int64_range (v_ModifiedAtSecond v + quietSeconds quietPeriod) ->
  isQuiet v = true
  <-> quietSeconds quietPeriod < nowUnixSeconds - v_ModifiedAtSecond v.
Proof.
  intros Hfit. unfold_isQuiet.
  rewrite bool_decide_eq_true, (wrap64_id _ Hfit). lia.
Qed.

(** Away from the wrap-around of line 218 the selection is sound: when
    the quiet period can be added to every modification time of the
    snapshot without leaving the [int64] range, every volume id the
    selector returns belongs to a volume of the snapshot that is on the
    source tier, whose collection matches the pattern when one is given,
    that has been quiet for at least the quiet period, and whose size is
    above the fullness threshold in bytes; and no id is returned twice,
    however many replicas the snapshot lists. *)
Theorem selected_volumes_meet_criteria topo :
  timestampsFit quietPeriod topo = true ->
  NoDup (collectVolumeIdsForTierChange topo).1
  /\ forall vid,
       vid ∈ (collectVolumeIdsForTierChange topo).1 ->
       exists dn v,
         inSnapshot topo dn v /\ v_Id v = vid
         /\ ToDiskType (v_DiskType v) = sourceTier
         /\ (collectionPattern <> "" ->
             Match collectionPattern (v_Collection v) = (true, None))
         /\ quietPeriod
            <= (nowUnixSeconds - v_ModifiedAtSecond v) * 1000000000
         /\ PrimFloat.ltb
              (fullThreshold volumeSizeLimitMb fullPercentage)
              (Go.float64_of_uint64 (v_Size v)) = true.
Proof.
  intros Hfit. split.
  - apply NoDup_fst_map_to_list.
  - intros vid (d & r & dn & v & Hdn & Hv & Hid & Hel)%selected_iff.
    apply scanned_elem in Hv.
    assert (inSnapshot topo dn v) as Hin by (split; eauto).
    exists dn, v. split; [done|]. split; [done|].
    unfold_criteria_in Hel.
    apply andb_prop in Hel as [Hel Hfull].
    apply andb_prop in Hel as [Hel Htier].
    apply andb_prop in Hel as [Hpat Hquiet].
    repeat split.
    + by apply bool_decide_eq_true in Htier.
    + intros Hne. unfold_criteria_in Hpat.
      rewrite (bool_decide_eq_false_2 _ Hne) in Hpat. simpl in Hpat.
      by destruct (Match collectionPattern (v_Collection v)) as [[] []].
    + apply isQuiet_exact in Hquiet; [|by eapply timestampsFit_elim].
      pose proof (quietSeconds_bound quietPeriod). nia.
    + exact Hfull.
Qed.

(** C4, as the code has it: for a modification time to which the quiet
    period can be added without leaving the [int64] range (so that the
    addition of line 218 does not wrap), a volume is skipped for recency
    exactly when the whole seconds since its last modification do not
    exceed the quiet period in whole seconds; a volume that has been
    quiet for strictly longer and meets the other criteria is selected,
    provided the matcher reports no error on its data node. *)
Theorem quiet_threshold_is_strict topo dn v :
  inSnapshot topo dn v ->
  (forall u, u ∈ volumesOf dn -> matchErrs u = false) ->
  Go.int64_range (v_ModifiedAtSecond v + quietSeconds quietPeriod) ->
  patternAccepts v = true -> onSourceTier v = true -> isFull v = true ->
  (quietSeconds quietPeriod < nowUnixSeconds - v_ModifiedAtSecond v ->
   v_Id v ∈ (collectVolumeIdsForTierChange topo).1)
  /\ (nowUnixSeconds - v_ModifiedAtSecond v <= quietSeconds quietPeriod ->
      forall vidMap, markIfEligible v vidMap = vidMap).
Proof.
  intros [(d & r & Hdn) Hv] Hclean Hfit Hpat Htier Hfull. split.
  - intros Hq%isQuiet_exact; [|done].
    apply selected_iff. exists d, r, dn, v.
    rewrite scanned_all by (by apply Forall_forall).
    repeat split; [done..|].
    unfold_eligible. by rewrite Hpat, Hq, Htier, Hfull.
  - intros Hq vidMap. unfold_criteria.
    destruct (isQuiet v) eqn:E; [|done].
    apply isQuiet_exact in E; [lia|done].
Qed.

(** C10: the selector never returns an error.  When the matcher fails
    on a volume, the visit of that data node ends there: the node adds
    to [vidMap] what the loop over the volumes before it adds, and
    every returned id comes from a volume reached before any failure
    on its data node. *)
Theorem malformed_pattern_cuts_node_scan topo :
  (collectVolumeIdsForTierChange topo).2 = None
  /\ (forall dn pre v post vidMap,
        volumesOf dn = (pre ++ v :: post)%list ->
        collectionPattern <> "" ->
        (Match collectionPattern (v_Collection v)).2 <> None ->
        visitDataNode dn vidMap = (rangeVolumeInfos pre vidMap).1)
  /\ (forall vid,
        vid ∈ (collectVolumeIdsForTierChange topo).1 ->
        exists dn pre v post,
          (exists d r, (d, r, dn) ∈ eachDataNode topo)
          /\ volumesOf dn = (pre ++ v :: post)%list
          /\ Forall (fun u => matchErrs u = false) (pre ++ [v])
          /\ v_Id v = vid).
Proof.
  split; [done|]. split.
  - intros dn pre v post vidMap Hvs Hne Herr.
    rewrite visitDataNode_scan, rangeVolumeInfos_scan, Hvs. cbn [fst].
    rewrite scanned_cut; [done|].
    unfold_criteria. rewrite (bool_decide_eq_true_2 _ Hne).
    by destruct ((Match collectionPattern (v_Collection v)).2).
  - intros vid (d & r & dn & v & Hdn & Hv & Hid & _)%selected_iff.
    destruct (scanned_prefix (volumesOf dn)) as [post Hpost].
    apply list_elem_of_split in Hv as (pre & post' & Hsplit).
    exists dn, pre, v, (post' ++ post)%list.
    split; [eauto|]. split.
    + rewrite Hpost, Hsplit. by rewrite <- app_assoc.
    + split; [|done].
      pose proof (scanned_clean (volumesOf dn)) as Hclean.
      rewrite Hsplit in Hclean.
      apply Forall_app in Hclean as [Hpre Hv'].
      apply Forall_app. split; [done|].
      apply Forall_cons in Hv' as [Hv' _]. by constructor.
Qed.

End SelectorFacts.

(** The scenario of the spec for the selector. *)
Example nearly_full_quiet_volume_selected :
  Sample.select (Sample.topology [Sample.holding "a" [Sample.aged 7 96 (2 * Sample.day)]])
  = ([7], None).
Proof. reflexivity. Qed.

Example volume_at_80_percent_not_selected :
  Sample.select (Sample.topology [Sample.holding "a" [Sample.aged 7 80 (2 * Sample.day)]])
  = ([], None).
Proof. reflexivity. Qed.

Example volume_written_10_minutes_ago_not_selected :
  Sample.select (Sample.topology [Sample.holding "a" [Sample.aged 7 96 600]])
  = ([], None).
Proof. reflexivity. Qed.

Lemma selected_volumes_meet_criteria_witness :
  timestampsFit Sample.hour Sample.twoReplicas = true
  /\ (NoDup (Sample.select Sample.twoReplicas).1
      /\ forall vid,
           vid ∈ (Sample.select Sample.twoReplicas).1 ->
           exists dn v,
             inSnapshot Sample.twoReplicas dn v /\ v_Id v = vid
             /\ Sample.ToDiskType (v_DiskType v) = ""
             /\ ("" <> "" -> Sample.Match "" (v_Collection v) = (true, None))
             /\ Sample.hour
                <= (Sample.now - v_ModifiedAtSecond v) * 1000000000
             /\ PrimFloat.ltb (fullThreshold 30000 95)
                  (Go.float64_of_uint64 (v_Size v)) = true).
Proof.
  split; [reflexivity|].
  apply (selected_volumes_meet_criteria Sample.ToDiskType Sample.Match
           30000 "" "" 95 Sample.hour Sample.now Sample.twoReplicas).
  reflexivity.
Defined.

(** C3: a volume stamped with the largest [int64] second is selected.
    Its last modification lies in the future, so it has not been quiet
    at all; but the addition [v.ModifiedAtSecond+quietSeconds] of line
    218 wraps around to a negative number, which is below [now], and the
    volume passes the quiet-time check. *)
Theorem far_future_volume_is_selected :
  let v :=
    Sample.volume 7 (30000 * Sample.MB * 96 / 100) "pics"
      9223372036854775807 "hdd" in
  let topo := Sample.topology [Sample.holding "a" [v]] in
  Go.int64_range (v_ModifiedAtSecond v)
  /\ Go.int64_add (v_ModifiedAtSecond v) (quietSeconds Sample.hour)
     = -9223372036854772209
  /\ isQuiet Sample.hour Sample.now v = true
  /\ Sample.select topo = ([7], None)
  /\ (Sample.now - v_ModifiedAtSecond v) * 1000000000 < Sample.hour.
Proof.
  cbv zeta. split; [by vm_compute|]. by repeat split.
Qed.

(** C4, as stated, fails on the code: a volume whose quiet time equals
    the quiet period and that meets every other criterion is left out. *)
Lemma boundary_volume_not_selected :
  let v := Sample.aged 7 96 3600 in
  inSnapshot Sample.boundary (Sample.holding "a" [v]) v
  /\ (Sample.now - v_ModifiedAtSecond v) * 1000000000 = Sample.hour
  /\ onSourceTier Sample.ToDiskType "" v = true
  /\ patternAccepts Sample.Match "" v = true
  /\ isFull 30000 95 v = true
  /\ (Sample.select Sample.boundary).1 = [].
Proof.
  cbv zeta. split; [|by repeat split].
  split; [exists "dc1", "r1"|]; cbn; set_solver.
Qed.

Lemma quiet_threshold_is_strict_witness :
  let v := Sample.aged 7 96 3601 in
  let dn := Sample.holding "a" [v] in
  let topo := Sample.topology [dn] in
  inSnapshot topo dn v
  /\ (forall u, u ∈ volumesOf dn -> matchErrs Sample.Match "" u = false)
  /\ Go.int64_range (v_ModifiedAtSecond v + quietSeconds Sample.hour)
  /\ patternAccepts Sample.Match "" v = true
  /\ onSourceTier Sample.ToDiskType "" v = true
  /\ isFull 30000 95 v = true
  /\ ((quietSeconds Sample.hour < Sample.now - v_ModifiedAtSecond v ->
       v_Id v ∈ (Sample.select topo).1)
      /\ (Sample.now - v_ModifiedAtSecond v <= quietSeconds Sample.hour ->
          forall vidMap,
            markIfEligible Sample.ToDiskType 30000 "" 95 Sample.hour
              Sample.now v vidMap = vidMap)).
Proof.
  cbv zeta.
  assert (inSnapshot
            (Sample.topology [Sample.holding "a" [Sample.aged 7 96 3601]])
            (Sample.holding "a" [Sample.aged 7 96 3601])
            (Sample.aged 7 96 3601)) as Hin.
  { split; [exists "dc1", "r1"|]; cbn; set_solver. }
  assert (forall u,
            u ∈ volumesOf (Sample.holding "a" [Sample.aged 7 96 3601]) ->
            matchErrs Sample.Match "" u = false) as Hclean.
  { intros u _. reflexivity. }
  assert (Go.int64_range
            (v_ModifiedAtSecond (Sample.aged 7 96 3601)
             + quietSeconds Sample.hour)) as Hfit.
  { apply (bool_decide_eq_true_1 _ (Decision0 := Go.int64_range_dec _)).
    reflexivity. }
  repeat (split; [first [exact Hin | exact Hclean | exact Hfit
                        | reflexivity]|]).
  apply (quiet_threshold_is_strict Sample.ToDiskType Sample.Match 30000 ""
           "" 95 Sample.hour Sample.now _ _ _ Hin Hclean Hfit);
    reflexivity.
Defined.

(** ** The executor *)

Ltac unfold_call := unfold call, emit; cbn [log allLocations activeServers].
Ltac unfold_executor := unfold doMoveOneVolume.
Ltac unfold_bump := unfold bumpDestination.
Ltac step_removeRemaining := cbn [removeRemaining].
Ltac step_incr := cbn [incrVolumeCount].
Ltac unfold_lookupDisk := unfold lookupDisk; cbn [List.find fst snd].

Lemma lookupDisk_split key ds d :
  lookupDisk key ds = Some d ->
  exists before after,
    ds = (before ++ (key, d) :: after)%list
    /\ (key ∉ fst <$> before)
    /\ incrVolumeCount key ds
       = Some (before
               ++ (key, {| VolumeCount := VolumeCount d + 1;
                           MaxVolumeCount := MaxVolumeCount d;
                           VolumeInfos := VolumeInfos d |}) :: after)%list.
Proof.
  induction ds as [|[k d'] ds IH]; [done|].
  unfold_lookupDisk. step_incr.
  destruct (decide (k = key)) as [->|Hne].
  - rewrite bool_decide_eq_true_2 by done. cbn. intros [= ->].
    exists [], ds. split; [done|]. split; [|done]. cbn. set_solver.
  - rewrite bool_decide_eq_false_2 by done. intros Hfind.
    destruct (IH Hfind) as (before & after & -> & Hfresh & ->).
    exists ((k, d') :: before), after. split; [done|]. split; [|done].
    cbn. set_solver.
Qed.

Lemma free_capacity_has_disk toDiskType info :
  capacityByFreeVolumeCount toDiskType info > 0 ->
  exists d, lookupDisk toDiskType (DiskInfos info) = Some d.
Proof.
  unfold capacityByFreeVolumeCount.
  destruct (lookupDisk toDiskType (DiskInfos info)); [eauto|lia].
Qed.

Lemma bumpDestination_spec toDiskType i w l d :
  allLocations w !! i = Some l ->
  lookupDisk toDiskType (DiskInfos (dataNode l)) = Some d ->
  exists l',
    bumped toDiskType l l'
    /\ bumpDestination toDiskType i w
       = Some {| allLocations := <[i := l']> (allLocations w);
                 activeServers := activeServers w;
                 log := log w |}.
Proof.
  intros Hl Hd.
  destruct (lookupDisk_split _ _ _ Hd) as (before & after & Hds & Hfresh & Hincr).
  unfold_bump. rewrite Hl. cbn. rewrite Hincr. cbn.
  eexists. split; [|reflexivity].
  unfold bumped; cbn. do 3 (split; [done|]). by exists before, d, after.
Qed.

Lemma bumpDestination_inv toDiskType i w w' :
  bumpDestination toDiskType i w = Some w' ->
  exists l d,
    allLocations w !! i = Some l
    /\ lookupDisk toDiskType (DiskInfos (dataNode l)) = Some d.
Proof.
  unfold_bump. destruct (allLocations w !! i) as [l|]; [|done]. cbn.
  intros Hsome. exists l.
  assert (is_Some (incrVolumeCount toDiskType (DiskInfos (dataNode l))))
    as Hincr.
  { destruct (incrVolumeCount _ _); [eauto|done]. }
  clear Hsome. revert Hincr. generalize (DiskInfos (dataNode l)).
  intros ds. induction ds as [|[k d] ds IH]; step_incr.
  - by intros [? ?].
  - unfold_lookupDisk. destruct (decide (k = toDiskType)) as [->|Hne].
    + rewrite bool_decide_eq_true_2 by done. cbn. eauto.
    + rewrite bool_decide_eq_false_2 by done. intros Hrest.
      destruct (incrVolumeCount toDiskType ds) eqn:E; [|by destruct Hrest].
      destruct IH as [d' Hd']; [eauto|]. exists d'. split; [done|].
      by destruct Hd'.
Qed.

(** *** What the cleanup's trace says, fact by fact *)

Lemma cleanupTrace_attempts vid dstId source locations evs :
  cleanupTrace vid dstId source locations evs ->
  forall loc, loc ∈ locations -> Url loc <> dstId -> Url loc <> source ->
  exists r, EvRpc (DeleteVolume vid (Url loc)) r ∈ evs.
Proof.
  induction 1 as [|loc' rest evs Hkeep _ IH|loc' rest evs ? ? _ IH
                  |loc' rest evs e ? ? _ IH];
    intros loc Hin Hd Hs.
  - by apply elem_of_nil in Hin.
  - apply elem_of_cons in Hin as [->|Hin]; [tauto|by apply IH].
  - apply elem_of_cons in Hin as [->|Hin].
    + exists None. set_solver.
    + destruct (IH loc) as [r Hr]; [done..|]. exists r. set_solver.
  - apply elem_of_cons in Hin as [->|Hin].
    + exists (Some e). set_solver.
    + destruct (IH loc) as [r Hr]; [done..|]. exists r. set_solver.
Qed.

Lemma cleanupTrace_failures_logged vid dstId source locations evs :
  cleanupTrace vid dstId source locations evs ->
  forall c e, EvRpc c (Some e) ∈ evs ->
  exists url,
    c = DeleteVolume vid url /\ EvWriter (MsgDeleteFailed vid url e) ∈ evs.
Proof.
  induction 1 as [|loc' rest evs Hkeep _ IH|loc' rest evs ? ? _ IH
                  |loc' rest evs e' ? ? _ IH];
    intros c e Hin.
  - by apply elem_of_nil in Hin.
  - by apply IH.
  - apply elem_of_cons in Hin as [[=]|Hin].
    destruct (IH c e Hin) as (url & -> & ?). exists url. set_solver.
  - apply elem_of_cons in Hin as [[= -> ->]|Hin].
    + exists (Url loc'). set_solver.
    + apply elem_of_cons in Hin as [[=]|Hin].
      destruct (IH c e Hin) as (url & -> & ?). exists url. set_solver.
Qed.

Lemma cleanupTrace_only_stale vid dstId source locations evs :
  cleanupTrace vid dstId source locations evs ->
  forall c r, EvRpc c r ∈ evs ->
  exists loc,
    loc ∈ locations /\ c = DeleteVolume vid (Url loc)
    /\ Url loc <> dstId /\ Url loc <> source.
Proof.
  induction 1 as [|loc' rest evs Hkeep _ IH|loc' rest evs ? ? _ IH
                  |loc' rest evs e' ? ? _ IH];
    intros c r Hin.
  - by apply elem_of_nil in Hin.
  - destruct (IH c r Hin) as (loc & ? & ?). exists loc. set_solver.
  - apply elem_of_cons in Hin as [[= -> ->]|Hin].
    + exists loc'. set_solver.
    + destruct (IH c r Hin) as (loc & ? & ?). exists loc. set_solver.
  - apply elem_of_cons in Hin as [[= -> ->]|Hin].
    + exists loc'. set_solver.
    + apply elem_of_cons in Hin as [[=]|Hin].
      destruct (IH c r Hin) as (loc & ? & ?). exists loc. set_solver.
Qed.

Section ExecutorFacts.

Variable ReadableString : DiskType -> string.
Variable env : CommandEnv.

Local Abbreviation removeRemaining := (removeRemaining env).
Local Abbreviation doMoveOneVolume := (doMoveOneVolume ReadableString env).

(** The cleanup loop only appends to the log, and what it appends has the
    shape of [cleanupTrace]. *)
Lemma removeRemaining_trace vid dstId source locations w :
  exists evs,
    cleanupTrace vid dstId source locations evs
    /\ removeRemaining vid dstId source locations w
       = {| allLocations := allLocations w;
            activeServers := activeServers w;
            log := (log w ++ evs)%list |}.
Proof.
  revert w. induction locations as [|loc rest IH]; intros w.
  - exists []. split; [constructor|]. rewrite app_nil_r. by destruct w.
  - step_removeRemaining.
    destruct (decide (Url loc <> dstId /\ Url loc <> source)) as [[H1 H2]|Hkeep].
    + unfold_call.
      destruct (rpcResult env (log w) (DeleteVolume vid (Url loc))) as [e|].
      * match goal with |- context [removeRemaining _ _ _ _ ?w1] =>
          destruct (IH w1) as (evs & Htrace & ->) end.
        eexists. split; [by apply cleanup_failed|]. cbn.
        by rewrite <- !app_assoc.
      * match goal with |- context [removeRemaining _ _ _ _ ?w1] =>
          destruct (IH w1) as (evs & Htrace & ->) end.
        eexists. split; [by apply cleanup_deleted|]. cbn.
        by rewrite <- !app_assoc.
    + destruct (IH w) as (evs & Htrace & ->).
      exists evs. split; [|done]. apply cleanup_kept; [|done].
      destruct (decide (Url loc = dstId)); [by left|].
      destruct (decide (Url loc = source)); [by right|]. tauto.
Qed.

Lemma doMoveOneVolume_success vid toDiskType locations source dst w l d :
  allLocations w !! dst = Some l ->
  copySucceeds ReadableString env vid toDiskType locations source
    (dn_Id (dataNode l)) w ->
  lookupDisk toDiskType (DiskInfos (dataNode l)) = Some d ->
  exists l' evs,
    bumped toDiskType l l'
    /\ cleanupTrace vid (dn_Id (dataNode l)) source locations evs
    /\ doMoveOneVolume vid toDiskType locations source dst w
       = ({| allLocations := <[dst := l']> (allLocations w);
             activeServers := activeServers w;
             log := (copied ReadableString vid toDiskType locations source
                       (dn_Id (dataNode l)) w ++ evs)%list |},
          Returned None).
Proof.
  intros Hl [Hmark Hcopy] Hd. unfold_executor. unfold_call.
  rewrite Hmark, Hl, Hcopy.
  match goal with |- context [bumpDestination _ _ ?w2] =>
    destruct (bumpDestination_spec toDiskType dst w2 l d Hl Hd)
      as (l' & Hbump & ->) end.
  match goal with |- context [removeRemaining ?v ?a ?b ?ls ?w3] =>
    destruct (removeRemaining_trace v a b ls w3) as (evs & Htrace & ->) end.
  exists l', evs. cbn. unfold copied. by rewrite <- !app_assoc.
Qed.

Lemma doMoveOneVolume_success_inv vid toDiskType locations source dst w w' :
  doMoveOneVolume vid toDiskType locations source dst w
  = (w', Returned None) ->
  exists l d,
    allLocations w !! dst = Some l
    /\ copySucceeds ReadableString env vid toDiskType locations source
    (dn_Id (dataNode l)) w
    /\ lookupDisk toDiskType (DiskInfos (dataNode l)) = Some d.
Proof.
  unfold_executor. unfold_call. unfold copySucceeds.
  destruct (rpcResult env (log w) (MarkVolumeReadonly vid locations)) eqn:Hm.
  { by destruct locations. }
  destruct (allLocations w !! dst) as [l|] eqn:Hl; [|done].
  destruct (rpcResult env _ (LiveMoveVolume _ _ _ _ _ _)) eqn:Hc.
  { by destruct locations. }
  destruct (bumpDestination _ _ _) as [w3|] eqn:Hb; [|done].
  intros _. apply bumpDestination_inv in Hb as (l0 & d & Hl0 & Hd).
  cbn in Hl0. rewrite Hl in Hl0. injection Hl0 as <-.
  by exists l, d.
Qed.

(** C9: once the copy has succeeded the executor returns nil whatever
    the deletes do.  What it appends to the log after the copy is a
    cleanup trace: one delete call for every replica that is neither
    the destination nor the source, in order, each failed call followed
    by its own line on the writer; no other call follows the copy, so
    nothing is undone. *)
Theorem delete_failure_is_logged_only
    vid toDiskType locations source dst w l d :
  allLocations w !! dst = Some l ->
  copySucceeds ReadableString env vid toDiskType locations source
    (dn_Id (dataNode l)) w ->
  lookupDisk toDiskType (DiskInfos (dataNode l)) = Some d ->
  exists l' evs,
    doMoveOneVolume vid toDiskType locations source dst w
    = ({| allLocations := <[dst := l']> (allLocations w);
          activeServers := activeServers w;
          log := (copied ReadableString vid toDiskType locations source
                    (dn_Id (dataNode l)) w ++ evs)%list |},
       Returned None)
    /\ cleanupTrace vid (dn_Id (dataNode l)) source locations evs
    /\ (forall loc,
          loc ∈ locations ->
          Url loc <> dn_Id (dataNode l) -> Url loc <> source ->
          exists r, EvRpc (DeleteVolume vid (Url loc)) r ∈ evs)
    /\ (forall c e,
          EvRpc c (Some e) ∈ evs ->
          exists url,
            c = DeleteVolume vid url
            /\ EvWriter (MsgDeleteFailed vid url e) ∈ evs)
    /\ (forall c r,
          EvRpc c r ∈ evs ->
          exists loc,
            loc ∈ locations /\ c = DeleteVolume vid (Url loc)
            /\ Url loc <> dn_Id (dataNode l) /\ Url loc <> source).
Proof.
  intros Hl Hcopy Hd.
  destruct (doMoveOneVolume_success vid toDiskType locations source dst w l d
              Hl Hcopy Hd) as (l' & evs & _ & Htrace & Hrun).
  exists l', evs. split; [done|]. split; [done|].
  split; [by eapply cleanupTrace_attempts|].
  split; [by eapply cleanupTrace_failures_logged|].
  by eapply cleanupTrace_only_stale.
Qed.

End ExecutorFacts.

(** ** Where the replicas are after a migration *)

Ltac unfold_replicas :=
  unfold replicasAfter, failedDeletes;
  cbn [foldl applyEffect omap list_omap].

Lemma failedDeletes_cons_ok vid url evs :
  failedDeletes vid (EvRpc (DeleteVolume vid url) None :: evs)
  = failedDeletes vid evs.
Proof. reflexivity. Qed.

Lemma failedDeletes_cons_failed vid url e m evs :
  failedDeletes vid
    (EvRpc (DeleteVolume vid url) (Some e) :: EvWriter m :: evs)
  = url :: failedDeletes vid evs.
Proof.
  unfold failedDeletes. cbn. by rewrite decide_True.
Qed.

Lemma replicasAfter_cons_ok vid url holders evs :
  replicasAfter vid holders (EvRpc (DeleteVolume vid url) None :: evs)
  = replicasAfter vid (holders ∖ {[url]}) evs.
Proof. unfold replicasAfter. cbn. by rewrite decide_True. Qed.

Lemma replicasAfter_cons_failed vid url e m holders evs :
  replicasAfter vid holders
    (EvRpc (DeleteVolume vid url) (Some e) :: EvWriter m :: evs)
  = replicasAfter vid holders evs.
Proof. reflexivity. Qed.

Lemma failedDeletes_stale vid dstId source locations evs :
  cleanupTrace vid dstId source locations evs ->
  forall u, u ∈ failedDeletes vid evs ->
  u ∈ Url <$> locations /\ u <> dstId /\ u <> source.
Proof.
  induction 1 as [|loc rest evs Hkeep _ IH|loc rest evs ? ? _ IH
                  |loc rest evs e ? ? _ IH]; intros u.
  - intros Hin. by apply elem_of_nil in Hin.
  - intros Hin%IH. set_solver.
  - rewrite failedDeletes_cons_ok. intros Hin%IH. set_solver.
  - rewrite failedDeletes_cons_failed.
    intros [->|Hin%IH]%elem_of_cons; set_solver.
Qed.

Lemma failedDeletes_NoDup vid dstId source locations evs :
  cleanupTrace vid dstId source locations evs ->
  NoDup (Url <$> locations) -> NoDup (failedDeletes vid evs).
Proof.
  induction 1 as [|loc rest evs Hkeep Htr IH|loc rest evs ? ? Htr IH
                  |loc rest evs e ? ? Htr IH];
    rewrite ?fmap_cons, ?NoDup_cons.
  - constructor.
  - intros [_ Hnd]. by apply IH.
  - rewrite failedDeletes_cons_ok. intros [_ Hnd]. by apply IH.
  - rewrite failedDeletes_cons_failed. intros [Hfresh Hnd].
    apply NoDup_cons. split; [|by apply IH].
    intros Hin. eapply failedDeletes_stale in Hin as [? _]; done.
Qed.

(** After the cleanup a server holds the volume exactly when it held it
    before and either was not to be cleaned or its delete failed. *)
Lemma replicasAfter_cleanup vid dstId source locations evs :
  cleanupTrace vid dstId source locations evs ->
  NoDup (Url <$> locations) ->
  forall holders u,
    u ∈ replicasAfter vid holders evs
    <-> u ∈ holders
        /\ (~ (u ∈ Url <$> locations /\ u <> dstId /\ u <> source)
            \/ u ∈ failedDeletes vid evs).
Proof.
  induction 1 as [|loc rest evs Hkeep Htr IH|loc rest evs ? ? Htr IH
                  |loc rest evs e ? ? Htr IH];
    rewrite ?fmap_cons, ?NoDup_cons; intros Hnd holders u.
  - unfold_replicas. set_solver.
  - destruct Hnd as [Hfresh Hnd]. rewrite (IH Hnd). set_solver.
  - destruct Hnd as [Hfresh Hnd].
    rewrite replicasAfter_cons_ok, failedDeletes_cons_ok, (IH Hnd).
    pose proof (failedDeletes_stale _ _ _ _ _ Htr u) as Hstale.
    destruct (decide (u = Url loc)) as [->|Hne]; set_solver.
  - destruct Hnd as [Hfresh Hnd].
    rewrite replicasAfter_cons_failed, failedDeletes_cons_failed, (IH Hnd).
    destruct (decide (u = Url loc)) as [->|Hne]; set_solver.
Qed.

Section PlacementFacts.

Variable ReadableString : DiskType -> string.
Variable env : CommandEnv.

(** C1: after a migration that ran to completion, the volume is held by
    the destination, by the source of the copy, and by the servers whose
    delete failed, and by no other server: two holders when every delete
    succeeded, one more for each delete that failed (three when one of
    the two stale replicas of a three-replica volume could not be
    deleted).  A delete is issued for every replica other than the
    source.  The statement holds for any number of replicas; the effect
    of the calls on the servers is the spec's. *)
Theorem three_replicas_leave_two
    vid toDiskType locations source dst w w' l :
  NoDup (Url <$> locations) ->
  allLocations w !! dst = Some l ->
  dn_Id (dataNode l) ∉ Url <$> locations ->
  source ∈ Url <$> locations ->
  doMoveOneVolume ReadableString env vid toDiskType locations source dst w
  = (w', Returned None) ->
  let evs := drop (length (log w)) (log w') in
  let holders := replicasAfter vid (list_to_set (Url <$> locations)) evs in
  holders = {[dn_Id (dataNode l); source]} ∪ list_to_set (failedDeletes vid evs)
  /\ size holders = (2 + length (failedDeletes vid evs))%nat
  /\ (failedDeletes vid evs = [] -> size holders = 2%nat)
  /\ (forall loc,
        loc ∈ locations -> Url loc <> source ->
        exists r, EvRpc (DeleteVolume vid (Url loc)) r ∈ evs).
Proof.
  intros Hnd Hl Hdst Hsrc Hrun evs holders.
  destruct (doMoveOneVolume_success_inv _ _ _ _ _ _ _ _ _ Hrun)
    as (l0 & d & Hl0 & Hcopy & Hd).
  rewrite Hl in Hl0. injection Hl0 as <-.
  destruct (doMoveOneVolume_success ReadableString env vid toDiskType
              locations source dst w l d Hl Hcopy Hd)
    as (l' & tr & _ & Htrace & Hrun').
  rewrite Hrun in Hrun'. injection Hrun' as ->.
  assert (evs = EvRpc (MarkVolumeReadonly vid locations) None
                :: EvRpc (LiveMoveVolume vid source (dn_Id (dataNode l))
                            5000000000 (ReadableString toDiskType) true) None
                :: tr) as Hevs.
  { subst evs. cbn [log]. unfold copied. rewrite <- app_assoc.
    by rewrite drop_app_length. }
  assert (failedDeletes vid evs = failedDeletes vid tr) as Hfailed
    by (by rewrite Hevs).
  assert (holders
          = replicasAfter vid
              ({[dn_Id (dataNode l)]} ∪ list_to_set (Url <$> locations)) tr)
    as Hholders.
  { subst holders. rewrite Hevs. unfold replicasAfter. cbn.
    by rewrite decide_True. }
  pose proof (failedDeletes_stale _ _ _ _ _ Htrace) as Hstale.
  assert (holders
          = {[dn_Id (dataNode l); source]} ∪ list_to_set (failedDeletes vid evs))
    as Heq.
  { rewrite Hholders, Hfailed. apply set_eq. intros u.
    rewrite (replicasAfter_cleanup _ _ _ _ _ Htrace Hnd).
    rewrite !elem_of_union, !elem_of_singleton, !elem_of_list_to_set.
    specialize (Hstale u).
    destruct (decide (u = dn_Id (dataNode l))) as [Hu|Hu];
      destruct (decide (u = source)) as [Hu'|Hu']; naive_solver. }
  assert (size holders = (2 + length (failedDeletes vid evs))%nat) as Hsize.
  { rewrite Heq, Hfailed.
    rewrite size_union.
    - rewrite size_union by set_solver. rewrite !size_singleton.
      rewrite size_list_to_set; [done|].
      by eapply failedDeletes_NoDup.
    - intros u. rewrite elem_of_union, !elem_of_singleton, elem_of_list_to_set.
      intros [->| ->] Hin%Hstale; tauto. }
  split; [done|]. split; [done|]. split.
  - intros Hnone. by rewrite Hsize, Hnone.
  - intros loc Hin Hne.
    destruct (cleanupTrace_attempts _ _ _ _ _ Htrace loc Hin) as [r Hr];
      [|done|].
    + intros Heq'. apply Hdst. rewrite <- Heq'. by apply list_elem_of_fmap_2.
    + exists r. rewrite Hevs. set_solver.
Qed.

End PlacementFacts.

(** ** The coordinator's loop *)

Ltac unfold_viable := unfold viable.
Ltac step_loop := cbn [rangeAllLocations].
Ltac unfold_coordinator := unfold doVolumeTierMove, sortLocations.
Ltac step_waitGroup := cbn [waitGroup].
Ltac unfold_runTask := unfold runTask.
Ltac step_rangeVolumeIds := cbn [rangeVolumeIds].

Section LoopFacts.

Variable ReadableString : DiskType -> string.

Local Abbreviation rangeAllLocations := (rangeAllLocations ReadableString).

(** Once a target is found, the remaining iterations do nothing. *)
Lemma loop_after_target vid toDiskType locations applyChanges i dsts wg w :
  rangeAllLocations vid toDiskType locations applyChanges i dsts true wg w
  = {| ls_world := w; ls_hasFoundTarget := true; ls_wg := wg;
       ls_stuck := None |}.
Proof.
  revert i. induction dsts as [|dst rest IH]; intros i; step_loop; [done|].
  by rewrite andb_false_r.
Qed.

(** Locations that are not viable are passed over. *)
Lemma loop_skips vid toDiskType locations applyChanges pre :
  Forall (fun dst => viable toDiskType locations dst = false) pre ->
  forall i rest wg w,
    rangeAllLocations vid toDiskType locations applyChanges i (pre ++ rest)
      false wg w
    = rangeAllLocations vid toDiskType locations applyChanges
        (i + length pre) rest false wg w.
Proof.
  induction 1 as [|dst pre Hdst _ IH]; intros i rest wg w.
  - cbn. by rewrite Nat.add_0_r.
  - cbn [app length]. step_loop. rewrite IH.
    replace (S i + length pre)%nat with (i + S (length pre))%nat by lia.
    unfold_viable. unfold viable in Hdst.
    destruct (bool_decide (capacityByFreeVolumeCount _ _ > 0)); [|done].
    destruct (isOneOf _ locations); [done|]. cbn in Hdst |- *.
    apply bool_decide_eq_false in Hdst.
    destruct (decide (pickSource _ locations = "")); [done|tauto].
Qed.

Lemma loop_none vid toDiskType locations applyChanges dsts i wg w :
  Forall (fun dst => viable toDiskType locations dst = false) dsts ->
  rangeAllLocations vid toDiskType locations applyChanges i dsts false wg w
  = {| ls_world := w; ls_hasFoundTarget := false; ls_wg := wg;
       ls_stuck := None |}.
Proof.
  intros Hnone. rewrite <- (app_nil_r dsts).
  by rewrite (loop_skips _ _ _ _ _ Hnone).
Qed.

(** The first viable location is taken. *)
Lemma loop_picks vid toDiskType locations applyChanges i dst rest wg w :
  viable toDiskType locations dst = true ->
  let dstId := dn_Id (dataNode dst) in
  let source := pickSource dstId locations in
  let w1 := emit (EvWriter (MsgMoving vid source dstId
                              (ReadableString toDiskType))) w in
  rangeAllLocations vid toDiskType locations applyChanges i (dst :: rest)
    false wg w
  = if negb applyChanges then
      match bumpDestination toDiskType i w1 with
      | Some w2 => {| ls_world := w2; ls_hasFoundTarget := true;
                      ls_wg := wg; ls_stuck := None |}
      | None => {| ls_world := w1; ls_hasFoundTarget := true;
                   ls_wg := wg; ls_stuck := Some Panicked |}
      end
    else if decide (source ∈ activeServers w1 \/ dstId ∈ activeServers w1)
    then {| ls_world := w1; ls_hasFoundTarget := true; ls_wg := wg;
            ls_stuck := Some Blocked |}
    else {| ls_world := emit (EvGo vid source dstId)
                          (acquire source dstId w1);
            ls_hasFoundTarget := true;
            ls_wg := (wg ++ [{| t_vid := vid; t_locations := locations;
                                t_source := source; t_dst := i |}])%list;
            ls_stuck := None |}.
Proof.
  intros Hviable dstId source w1. step_loop.
  unfold viable in Hviable.
  apply andb_prop in Hviable as [Hviable Hsrc].
  apply andb_prop in Hviable as [Hcap Hhost].
  rewrite Hcap. apply negb_true_iff in Hhost. rewrite Hhost. cbn.
  apply bool_decide_eq_true in Hsrc.
  destruct (decide (pickSource (dn_Id (dataNode dst)) locations = ""));
    [done|].
  destruct applyChanges; cbn; [|done].
  destruct (decide _); [done|]. by rewrite loop_after_target.
Qed.

(** A list of locations either has no viable one or splits at its
    first viable one. *)
Lemma first_viable toDiskType locations (dsts : list location) :
  Forall (fun dst => viable toDiskType locations dst = false) dsts
  \/ exists pre dst post,
       dsts = (pre ++ dst :: post)%list
       /\ Forall (fun dst => viable toDiskType locations dst = false) pre
       /\ viable toDiskType locations dst = true.
Proof.
  induction dsts as [|dst rest IH]; [by left|].
  destruct (viable toDiskType locations dst) eqn:Hdst.
  - right. by exists [], dst, rest.
  - destruct IH as [Hnone|(pre & dst' & post & -> & Hpre & Hdst')].
    + left. by constructor.
    + right. exists (dst :: pre), dst', post. by repeat constructor.
Qed.

End LoopFacts.

(** ** The ranking of destinations *)

Ltac unfold_sort := unfold keepDataNodesSorted; cbn [foldr].
Ltac step_insert := cbn [insertByCapacity].

Lemma insertByCapacity_perm diskType l sorted :
  insertByCapacity diskType l sorted ≡ₚ l :: sorted.
Proof.
  induction sorted as [|l' rest IH]; step_insert; [done|].
  case_bool_decide; [done|]. rewrite IH. apply Permutation_swap.
Qed.

Lemma insertByCapacity_sorted diskType l sorted :
  StronglySorted (ranksBefore diskType) sorted ->
  StronglySorted (ranksBefore diskType) (insertByCapacity diskType l sorted).
Proof.
  induction 1 as [|l' rest Hrest IH Hall]; step_insert.
  - by repeat constructor.
  - case_bool_decide as Hle.
    + constructor; [by constructor|]. constructor; [done|].
      eapply Forall_impl; [exact Hall|]. unfold ranksBefore. intros; lia.
    + constructor; [done|].
      rewrite insertByCapacity_perm. constructor; [|done].
      unfold ranksBefore. lia.
Qed.

Lemma keepDataNodesSorted_perm datanodes diskType :
  keepDataNodesSorted datanodes diskType ≡ₚ datanodes.
Proof.
  induction datanodes as [|l rest IH]; unfold_sort; [done|].
  rewrite insertByCapacity_perm. by constructor.
Qed.

Lemma keepDataNodesSorted_sorted datanodes diskType :
  StronglySorted (ranksBefore diskType)
    (keepDataNodesSorted datanodes diskType).
Proof.
  induction datanodes as [|l rest IH]; unfold_sort; [constructor|].
  by apply insertByCapacity_sorted.
Qed.

(** In a ranked list nothing after a position has more free capacity
    than the location at it. *)
Lemma ranked_split diskType pre dst post :
  StronglySorted (ranksBefore diskType) (pre ++ dst :: post) ->
  Forall (ranksBefore diskType dst) post.
Proof.
  induction pre as [|l pre IH]; cbn; intros Hs.
  - by apply StronglySorted_inv in Hs as [_ ?].
  - apply StronglySorted_inv in Hs as [? _]. by apply IH.
Qed.

(** ** The source of the copy *)

Ltac unfold_pickSource := unfold pickSource.
Ltac unfold_copied := unfold copied.

Lemma pickSource_from dstId locations start :
  let picked :=
    foldl (fun s loc => if decide (Url loc <> dstId) then Url loc else s)
      start locations in
  picked = start \/ (picked ∈ Url <$> locations /\ picked <> dstId).
Proof.
  revert start. induction locations as [|loc rest IH]; intros start; cbn.
  - by left.
  - destruct (decide (Url loc <> dstId)) as [Hne|Heq].
    + destruct (IH (Url loc)) as [->|[? ?]]; right; set_solver.
    + destruct (IH start) as [->|[? ?]]; [by left|right; set_solver].
Qed.

(** A source that is not the empty address is the address of one of the
    volume's replicas, and differs from the destination. *)
Lemma pickSource_spec dstId locations :
  pickSource dstId locations <> "" ->
  pickSource dstId locations ∈ Url <$> locations
  /\ pickSource dstId locations <> dstId.
Proof.
  intros Hne. unfold_pickSource.
  by destruct (pickSource_from dstId locations "") as [Heq|?].
Qed.

Lemma viable_elim toDiskType locations dst :
  viable toDiskType locations dst = true ->
  capacityByFreeVolumeCount toDiskType (dataNode dst) > 0
  /\ isOneOf (dn_Id (dataNode dst)) locations = false
  /\ pickSource (dn_Id (dataNode dst)) locations <> "".
Proof.
  unfold_viable. intros H.
  apply andb_prop in H as [H Hsrc]. apply andb_prop in H as [Hcap Hhost].
  apply bool_decide_eq_true in Hcap, Hsrc. apply negb_true_iff in Hhost.
  done.
Qed.

Lemma isOneOf_spec server locations :
  isOneOf server locations = true <-> server ∈ Url <$> locations.
Proof.
  induction locations as [|loc rest IH]; cbn.
  - split; [done|]. intros Hin. by apply elem_of_nil in Hin.
  - destruct (decide (server = Url loc)) as [->|Hne]; [set_solver|].
    rewrite IH. set_solver.
Qed.

(** ** One volume's move *)

Section CoordinatorFacts.

Variable ReadableString : DiskType -> string.
Variable env : CommandEnv.

Local Abbreviation doMoveOneVolume := (doMoveOneVolume ReadableString env).
Local Abbreviation runTask := (runTask ReadableString env).
Local Abbreviation waitGroup := (waitGroup ReadableString env).
Local Abbreviation doVolumeTierMove := (doVolumeTierMove ReadableString env).
Local Abbreviation rangeVolumeIds := (rangeVolumeIds ReadableString env).
Local Abbreviation announced := (announced ReadableString).
Local Abbreviation dispatched := (dispatched ReadableString).
Local Abbreviation copied := (copied ReadableString).
Local Abbreviation copySucceeds := (copySucceeds ReadableString env).

Lemma doMoveOneVolume_mark_failed
    vid toDiskType loc0 rest source dst w e :
  rpcResult env (log w) (MarkVolumeReadonly vid (loc0 :: rest)) = Some e ->
  doMoveOneVolume vid toDiskType (loc0 :: rest) source dst w
  = (emit (EvRpc (MarkVolumeReadonly vid (loc0 :: rest)) (Some e)) w,
     Returned (Some (ErrMarkReadonly vid (Url loc0) e))).
Proof. intros Hmark. unfold_executor. unfold_call. by rewrite Hmark. Qed.

Lemma doMoveOneVolume_copy_failed
    vid toDiskType loc0 rest source dst w l e :
  rpcResult env (log w) (MarkVolumeReadonly vid (loc0 :: rest)) = None ->
  allLocations w !! dst = Some l ->
  rpcResult env
    (log w ++ [EvRpc (MarkVolumeReadonly vid (loc0 :: rest)) None])
    (LiveMoveVolume vid source (dn_Id (dataNode l)) 5000000000
       (ReadableString toDiskType) true) = Some e ->
  doMoveOneVolume vid toDiskType (loc0 :: rest) source dst w
  = (emit (EvRpc (LiveMoveVolume vid source (dn_Id (dataNode l)) 5000000000
                    (ReadableString toDiskType) true) (Some e))
       (emit (EvRpc (MarkVolumeReadonly vid (loc0 :: rest)) None) w),
     Returned (Some (ErrMove vid (Url loc0) (dn_Id (dataNode l)) e))).
Proof.
  intros Hmark Hl Hcopy. unfold_executor. unfold_call.
  by rewrite Hmark, Hl, Hcopy.
Qed.

(** A goroutine started by the loop always reaches its [wg.Done()]: it
    releases its two servers, changes no other field than the
    destination's, and only appends to the log. *)
Lemma runTask_total vid toDiskType loc0 rest source i w l d :
  allLocations w !! i = Some l ->
  lookupDisk toDiskType (DiskInfos (dataNode l)) = Some d ->
  exists w',
    runTask toDiskType
      {| t_vid := vid; t_locations := loc0 :: rest; t_source := source;
         t_dst := i |} w = Some w'
    /\ activeServers w'
       = activeServers w ∖ {[source]} ∖ {[dn_Id (dataNode l)]}
    /\ log w `prefix_of` log w'.
Proof.
  intros Hl Hd. unfold_runTask. cbn [t_vid t_locations t_source t_dst].
  rewrite Hl. cbn [mbind option_bind].
  destruct (rpcResult env (log w) (MarkVolumeReadonly vid (loc0 :: rest)))
    as [e|] eqn:Hmark.
  { rewrite (doMoveOneVolume_mark_failed _ _ _ _ _ _ _ _ Hmark).
    eexists. split; [done|]. split; [done|]. cbn.
    rewrite <- !app_assoc. by apply prefix_app_r. }
  destruct (rpcResult env
              (log w ++ [EvRpc (MarkVolumeReadonly vid (loc0 :: rest)) None])
              (LiveMoveVolume vid source (dn_Id (dataNode l)) 5000000000
                 (ReadableString toDiskType) true)) as [e|] eqn:Hcopy.
  { rewrite (doMoveOneVolume_copy_failed _ _ _ _ _ _ _ _ _ Hmark Hl Hcopy).
    eexists. split; [done|]. split; [done|]. cbn.
    rewrite <- !app_assoc. by apply prefix_app_r. }
  destruct (doMoveOneVolume_success ReadableString env vid toDiskType
              (loc0 :: rest) source i w l d Hl (conj Hmark Hcopy) Hd)
    as (l' & evs & _ & _ & ->).
  eexists. split; [done|]. split; [done|]. cbn. unfold_copied.
  rewrite <- !app_assoc. by apply prefix_app_r.
Qed.

Lemma doVolumeTierMove_not_found vid toDiskType applyChanges w locations :
  GetLocations env vid = (locations, false) ->
  doVolumeTierMove vid toDiskType applyChanges w
  = (emit (EvGetLocations vid false) w,
     Returned (Some (ErrVolumeNotFound vid))).
Proof. intros Hloc. unfold_coordinator. by rewrite Hloc. Qed.

Lemma doVolumeTierMove_no_target vid toDiskType applyChanges w locations :
  GetLocations env vid = (locations, true) ->
  Forall (fun dst => viable toDiskType locations dst = false)
    (keepDataNodesSorted (allLocations w) toDiskType) ->
  doVolumeTierMove vid toDiskType applyChanges w
  = (emit (EvWriter (MsgCanNotFind (ReadableString toDiskType) vid))
       (emit EvWait
          (sortLocations toDiskType (emit (EvGetLocations vid true) w))),
     Returned None).
Proof.
  intros Hloc Hnone. unfold_coordinator. rewrite Hloc.
  cbn [negb allLocations emit log activeServers].
  by rewrite (loop_none _ _ _ _ _ _ _ _ _ Hnone).
Qed.

Lemma doVolumeTierMove_dry vid toDiskType w locations pre dst post :
  GetLocations env vid = (locations, true) ->
  keepDataNodesSorted (allLocations w) toDiskType
  = (pre ++ dst :: post)%list ->
  Forall (fun dst => viable toDiskType locations dst = false) pre ->
  viable toDiskType locations dst = true ->
  exists dst',
    bumped toDiskType dst dst'
    /\ doVolumeTierMove vid toDiskType false w
       = ({| allLocations := (pre ++ dst' :: post)%list;
             activeServers := activeServers w;
             log := (log w
                     ++ [EvGetLocations vid true;
                         EvWriter
                           (MsgMoving vid
                              (pickSource (dn_Id (dataNode dst)) locations)
                              (dn_Id (dataNode dst))
                              (ReadableString toDiskType));
                         EvWait])%list |},
          Returned None).
Proof.
  intros Hloc Hsplit Hpre Hdst. unfold_coordinator. rewrite Hloc.
  cbn [negb allLocations emit log activeServers]. rewrite Hsplit.
  rewrite (loop_skips _ _ _ _ _ _ Hpre), (loop_picks _ _ _ _ _ _ _ _ _ _ Hdst).
  cbn [negb Nat.add].
  apply viable_elim in Hdst as (Hcap & _ & _).
  apply free_capacity_has_disk in Hcap as [d Hd].
  match goal with |- context [bumpDestination _ _ ?w1] =>
    destruct (bumpDestination_spec toDiskType (length pre) w1 dst d)
      as (dst' & Hbump & ->); [by apply list_lookup_middle|done|] end.
  exists dst'. split; [done|]. cbn.
  replace (length pre) with (length pre + 0)%nat by lia.
  rewrite insert_app_r. unfold emit. cbn. by rewrite <- !app_assoc.
Qed.

Lemma doVolumeTierMove_apply vid toDiskType w locations pre dst post :
  GetLocations env vid = (locations, true) ->
  keepDataNodesSorted (allLocations w) toDiskType
  = (pre ++ dst :: post)%list ->
  Forall (fun dst => viable toDiskType locations dst = false) pre ->
  viable toDiskType locations dst = true ->
  let dstId := dn_Id (dataNode dst) in
  let source := pickSource dstId locations in
  doVolumeTierMove vid toDiskType true w
  = if decide (source ∈ activeServers w \/ dstId ∈ activeServers w) then
      (announced vid toDiskType source dstId w, Blocked)
    else
      match runTask toDiskType
              {| t_vid := vid; t_locations := locations;
                 t_source := source; t_dst := length pre |}
              (dispatched vid toDiskType source dstId w) with
      | Some w2 => (emit EvWait w2, Returned None)
      | None => (dispatched vid toDiskType source dstId w, Panicked)
      end.
Proof.
  intros Hloc Hsplit Hpre Hdst dstId source. unfold_coordinator.
  unfold dispatched, announced, sortLocations.
  rewrite Hloc. cbn [negb allLocations emit log activeServers].
  rewrite Hsplit.
  rewrite (loop_skips _ _ _ _ _ _ Hpre), (loop_picks _ _ _ _ _ _ _ _ _ _ Hdst).
  cbn [negb Nat.add allLocations emit log activeServers].
  fold dstId. fold source.
  destruct (decide (source ∈ activeServers w \/ dstId ∈ activeServers w));
    [done|].
  cbn [ls_stuck ls_wg ls_world ls_hasFoundTarget app]. step_waitGroup.
  destruct (runTask _ _ _); by cbn.
Qed.

(** A dry run appends three lines at most and no call. *)
Lemma doVolumeTierMove_dry_effects vid toDiskType w :
  exists delta,
    log (doVolumeTierMove vid toDiskType false w).1 = (log w ++ delta)%list
    /\ Forall (fun ev => isMutating ev = false) delta
    /\ activeServers (doVolumeTierMove vid toDiskType false w).1
       = activeServers w
    /\ exists err,
         (doVolumeTierMove vid toDiskType false w).2 = Returned err.
Proof.
  destruct (GetLocations env vid) as [locations [|]] eqn:Hloc.
  - destruct (first_viable toDiskType locations
                (keepDataNodesSorted (allLocations w) toDiskType))
      as [Hnone|(pre & dst & post & Hsplit & Hpre & Hdst)].
    + rewrite (doVolumeTierMove_no_target _ _ _ _ _ Hloc Hnone).
      eexists. cbn. rewrite <- !app_assoc.
      split; [reflexivity|]. split; [by repeat constructor|]. eauto.
    + destruct (doVolumeTierMove_dry _ _ _ _ _ _ _ Hloc Hsplit Hpre Hdst)
        as (dst' & _ & ->).
      eexists. cbn. split; [reflexivity|].
      split; [by repeat constructor|]. eauto.
  - rewrite (doVolumeTierMove_not_found _ _ _ _ _ Hloc).
    eexists. cbn. split; [reflexivity|].
    split; [by repeat constructor|]. eauto.
Qed.

(** C5: in a dry run [doVolumeTierMove] issues no call and starts no
    goroutine: it only appends lines to the log that are neither, and
    leaves the set of active servers alone.  For a volume with a viable
    destination the slice of locations ends up sorted with the volume
    count of the destination's target-tier disk one higher and every
    other field of every data node as it was; without one the data nodes
    are untouched. *)
Theorem dry_run_only_bumps_destination vid toDiskType w :
  let sorted := keepDataNodesSorted (allLocations w) toDiskType in
  let w' := (doVolumeTierMove vid toDiskType false w).1 in
  (exists delta,
     log w' = (log w ++ delta)%list
     /\ Forall (fun ev => isMutating ev = false) delta)
  /\ activeServers w' = activeServers w
  /\ sorted ≡ₚ allLocations w
  /\ (forall locations pre dst post,
        GetLocations env vid = (locations, true) ->
        sorted = (pre ++ dst :: post)%list ->
        Forall (fun dst => viable toDiskType locations dst = false) pre ->
        viable toDiskType locations dst = true ->
        exists dst',
          bumped toDiskType dst dst'
          /\ allLocations w' = (pre ++ dst' :: post)%list)
  /\ (forall locations,
        GetLocations env vid = (locations, true) ->
        Forall (fun dst => viable toDiskType locations dst = false) sorted ->
        allLocations w' = sorted)
  /\ (forall locations,
        GetLocations env vid = (locations, false) ->
        allLocations w' = allLocations w).
Proof.
  intros sorted w'.
  destruct (doVolumeTierMove_dry_effects vid toDiskType w)
    as (delta & Hlog & Hpure & Hactive & _).
  split; [by exists delta|]. split; [done|].
  split; [apply keepDataNodesSorted_perm|]. split; [|split].
  - intros locations pre dst post Hloc Hsplit Hpre Hdst.
    destruct (doVolumeTierMove_dry _ _ _ _ _ _ _ Hloc Hsplit Hpre Hdst)
      as (dst' & Hbump & Hrun).
    exists dst'. split; [done|]. subst w'. by rewrite Hrun.
  - intros locations Hloc Hnone. subst w'.
    by rewrite (doVolumeTierMove_no_target _ _ _ _ _ Hloc Hnone).
  - intros locations Hloc. subst w'.
    by rewrite (doVolumeTierMove_not_found _ _ _ _ _ Hloc).
Qed.

Lemma dispatched_locations vid toDiskType source dstId w :
  allLocations (dispatched vid toDiskType source dstId w)
  = keepDataNodesSorted (allLocations w) toDiskType.
Proof. reflexivity. Qed.

Lemma dispatched_log vid toDiskType source dstId w :
  log (dispatched vid toDiskType source dstId w)
  = (log (announced vid toDiskType source dstId w)
     ++ [EvGo vid source dstId])%list.
Proof. reflexivity. Qed.

(** With the gate free, the goroutine of a viable destination is started
    and joined, and the call returns nil. *)
Lemma doVolumeTierMove_dispatches vid toDiskType w locations pre dst post :
  GetLocations env vid = (locations, true) ->
  keepDataNodesSorted (allLocations w) toDiskType
  = (pre ++ dst :: post)%list ->
  Forall (fun dst => viable toDiskType locations dst = false) pre ->
  viable toDiskType locations dst = true ->
  let dstId := dn_Id (dataNode dst) in
  let source := pickSource dstId locations in
  source ∉ activeServers w -> dstId ∉ activeServers w ->
  exists w2,
    runTask toDiskType
      {| t_vid := vid; t_locations := locations; t_source := source;
         t_dst := length pre |}
      (dispatched vid toDiskType source dstId w) = Some w2
    /\ doVolumeTierMove vid toDiskType true w = (emit EvWait w2, Returned None)
    /\ activeServers w2 = activeServers w
    /\ log (dispatched vid toDiskType source dstId w) `prefix_of` log w2.
Proof.
  intros Hloc Hsplit Hpre Hdst dstId source Hsrc Hdstfree.
  rewrite (doVolumeTierMove_apply _ _ _ _ _ _ _ Hloc Hsplit Hpre Hdst).
  fold dstId. fold source. rewrite decide_False by tauto.
  destruct (viable_elim _ _ _ Hdst) as (Hcap & _ & Hpick).
  apply free_capacity_has_disk in Hcap as [d Hd].
  destruct locations as [|loc0 rest]; [done|].
  destruct (runTask_total vid toDiskType loc0 rest source (length pre)
              (dispatched vid toDiskType source dstId w) dst d)
    as (w2 & Hrun & Hactive & Hprefix); [|done|].
  { rewrite dispatched_locations, Hsplit. by apply list_lookup_middle. }
  exists w2. rewrite Hrun. split; [done|]. split; [done|]. split; [|done].
  rewrite Hactive. cbn. fold dstId. set_solver.
Qed.

(** C7: the destinations are walked in the order of their free capacity
    for the target tier; a node that already holds a replica of the
    volume, or has no free capacity, is passed over; the first viable
    node becomes the destination and the source is the address of one of
    the volume's replicas, different from the destination; the move of
    the volume from that source to that destination is what the call
    announces and, with changes applied and the gate free, dispatches.
    Without a viable node the call prints that it can not find the disk
    type, issues no call, and returns nil. *)
Theorem destination_is_first_viable vid toDiskType applyChanges w locations :
  GetLocations env vid = (locations, true) ->
  let sorted := keepDataNodesSorted (allLocations w) toDiskType in
  let run := doVolumeTierMove vid toDiskType applyChanges w in
  sorted ≡ₚ allLocations w
  /\ StronglySorted (ranksBefore toDiskType) sorted
  /\ (forall dst,
        dn_Id (dataNode dst) ∈ Url <$> locations
        \/ capacityByFreeVolumeCount toDiskType (dataNode dst) <= 0 ->
        viable toDiskType locations dst = false)
  /\ (Forall (fun dst => viable toDiskType locations dst = false) sorted ->
      run = (emit (EvWriter (MsgCanNotFind (ReadableString toDiskType) vid))
               (emit EvWait
                  (sortLocations toDiskType
                     (emit (EvGetLocations vid true) w))),
             Returned None))
  /\ (forall pre dst post,
        sorted = (pre ++ dst :: post)%list ->
        Forall (fun dst => viable toDiskType locations dst = false) pre ->
        viable toDiskType locations dst = true ->
        let dstId := dn_Id (dataNode dst) in
        let source := pickSource dstId locations in
        source ∈ Url <$> locations /\ source <> dstId
        /\ (forall other,
              other ∈ allLocations w ->
              viable toDiskType locations other = true ->
              capacityByFreeVolumeCount toDiskType (dataNode other)
              <= capacityByFreeVolumeCount toDiskType (dataNode dst))
        /\ log (announced vid toDiskType source dstId w) `prefix_of` log run.1
        /\ (applyChanges = true ->
            source ∉ activeServers w -> dstId ∉ activeServers w ->
            log (dispatched vid toDiskType source dstId w)
              `prefix_of` log run.1
            /\ run.2 = Returned None)).
Proof.
  intros Hloc sorted run.
  split; [apply keepDataNodesSorted_perm|].
  split; [apply keepDataNodesSorted_sorted|]. split; [|split].
  - intros dst Hskip. unfold_viable.
    destruct Hskip as [Hhost%isOneOf_spec|Hfull].
    + rewrite Hhost. cbn. by rewrite andb_false_r.
    + rewrite bool_decide_eq_false_2 by lia. done.
  - intros Hnone. by apply (doVolumeTierMove_no_target _ _ _ _ locations).
  - intros pre dst post Hsplit Hpre Hdst dstId source.
    destruct (viable_elim _ _ _ Hdst) as (Hcap & Hhost & Hpick).
    destruct (pickSource_spec _ _ Hpick) as [Hin Hne].
    split; [done|]. split; [done|]. split; [|split].
    + intros other Hother Hviable.
      assert (other ∈ sorted) as Hother'
        by (unfold sorted; by rewrite keepDataNodesSorted_perm).
      pose proof (keepDataNodesSorted_sorted (allLocations w) toDiskType)
        as Hsorted.
      fold sorted in Hsorted. rewrite Hsplit in Hsorted, Hother'.
      apply ranked_split in Hsorted. rewrite Forall_forall in Hsorted.
      apply elem_of_app in Hother' as [Hearly|Hlate].
      * rewrite Forall_forall in Hpre. apply Hpre in Hearly. congruence.
      * apply elem_of_cons in Hlate as [->|Hlate]; [lia|].
        by apply Hsorted in Hlate.
    + subst run. destruct applyChanges.
      * destruct (decide (source ∈ activeServers w
                          \/ dstId ∈ activeServers w)) as [Hbusy|Hfree].
        { rewrite (doVolumeTierMove_apply _ _ _ _ _ _ _
                     Hloc Hsplit Hpre Hdst).
          fold dstId. fold source. by rewrite decide_True. }
        destruct (doVolumeTierMove_dispatches _ _ _ _ _ _ _
                    Hloc Hsplit Hpre Hdst)
          as (w2 & _ & -> & _ & Hprefix); [tauto..|].
        cbn [fst log emit]. apply prefix_app_r.
        etrans; [|exact Hprefix]. rewrite dispatched_log.
        by apply prefix_app_r.
      * destruct (doVolumeTierMove_dry _ _ _ _ _ _ _ Hloc Hsplit Hpre Hdst)
          as (dst' & _ & ->).
        exists [EvWait]. cbn. by rewrite <- !app_assoc.
    + intros -> Hsrcfree Hdstfree. subst run.
      destruct (doVolumeTierMove_dispatches _ _ _ _ _ _ _
                  Hloc Hsplit Hpre Hdst)
        as (w2 & _ & -> & _ & Hprefix); [done..|].
      split; [|done]. cbn [fst log emit]. by apply prefix_app_r.
Qed.

(** C8: when marking the replicas read-only fails, the executor returns
    that error at once, having issued the mark and nothing else: no copy,
    no delete, no counter changed.  The goroutine reports the failure on
    the writer and releases its two servers, [doVolumeTierMove] returns
    nil with the data nodes as they were, and the loop of [Do] goes on
    with the remaining volumes. *)
Theorem readonly_failure_aborts_volume
    vid toDiskType w loc0 rest pre dst post e vids :
  let locations := loc0 :: rest in
  let dstId := dn_Id (dataNode dst) in
  let source := pickSource dstId locations in
  let mark := MarkVolumeReadonly vid locations in
  let err := ErrMarkReadonly vid (Url loc0) e in
  let started := dispatched vid toDiskType source dstId w in
  let finished :=
    {| allLocations := keepDataNodesSorted (allLocations w) toDiskType;
       activeServers := activeServers w;
       log := (log started
               ++ [EvRpc mark (Some e);
                   EvWriter (MsgMoveFailed vid source dstId err);
                   EvDone vid; EvWait])%list |} in
  GetLocations env vid = (locations, true) ->
  keepDataNodesSorted (allLocations w) toDiskType
  = (pre ++ dst :: post)%list ->
  Forall (fun dst => viable toDiskType locations dst = false) pre ->
  viable toDiskType locations dst = true ->
  source ∉ activeServers w -> dstId ∉ activeServers w ->
  rpcResult env (log started) mark = Some e ->
  doMoveOneVolume vid toDiskType locations source (length pre) started
  = (emit (EvRpc mark (Some e)) started, Returned (Some err))
  /\ doVolumeTierMove vid toDiskType true w = (finished, Returned None)
  /\ rangeVolumeIds (vid :: vids) toDiskType true w
     = rangeVolumeIds vids toDiskType true finished.
Proof.
  intros locations dstId source mark err started finished
    Hloc Hsplit Hpre Hdst Hsrcfree Hdstfree Hmark.
  assert (doMoveOneVolume vid toDiskType locations source (length pre) started
          = (emit (EvRpc mark (Some e)) started, Returned (Some err)))
    as Hexec by (by apply doMoveOneVolume_mark_failed).
  assert (doVolumeTierMove vid toDiskType true w = (finished, Returned None))
    as Hmove.
  { rewrite (doVolumeTierMove_apply _ _ _ _ _ _ _ Hloc Hsplit Hpre Hdst).
    fold locations dstId. fold source. rewrite decide_False by tauto.
    fold started. unfold_runTask.
    cbn [t_vid t_locations t_source t_dst].
    assert (allLocations started !! length pre = Some dst) as ->.
    { subst started. rewrite dispatched_locations, Hsplit.
      by apply list_lookup_middle. }
    cbn [mbind option_bind]. fold dstId. rewrite Hexec.
    f_equal. subst finished. unfold emit, release.
    cbn [allLocations activeServers log]. f_equal.
    - subst started. cbn [activeServers dispatched emit acquire].
      cbn. set_solver.
    - by rewrite <- !app_assoc. }
  split; [done|]. split; [done|].
  step_rangeVolumeIds. by rewrite Hmove.
Qed.

End CoordinatorFacts.

(** ** The whole run *)

Ltac unfold_Do := unfold Do.

Section RunFacts.

Variable ToDiskType : string -> DiskType.
Variable ReadableString : DiskType -> string.
Variable Match : string -> string -> bool * option error.
Variable Parse : list string -> error + Flags.
Variable env : CommandEnv.

Local Abbreviation doVolumeTierMove := (doVolumeTierMove ReadableString env).
Local Abbreviation rangeVolumeIds := (rangeVolumeIds ReadableString env).
Local Abbreviation Do := (Do ToDiskType ReadableString Match Parse env).

(** With no server active, [doVolumeTierMove] neither blocks nor panics;
    it leaves no server active, logs its lookup, and returns an error
    only for a volume the master does not know. *)
Lemma doVolumeTierMove_returns vid toDiskType applyChanges w :
  activeServers w = ∅ ->
  exists w',
    doVolumeTierMove vid toDiskType applyChanges w
    = (w', Returned (if (GetLocations env vid).2 then None
                     else Some (ErrVolumeNotFound vid)))
    /\ activeServers w' = ∅
    /\ (log w ++ [EvGetLocations vid (GetLocations env vid).2])%list
         `prefix_of` log w'.
Proof.
  intros Hidle.
  destruct (GetLocations env vid) as [locations [|]] eqn:Hloc; cbn [snd].
  - destruct (first_viable toDiskType locations
                (keepDataNodesSorted (allLocations w) toDiskType))
      as [Hnone|(pre & dst & post & Hsplit & Hpre & Hdst)].
    + rewrite (doVolumeTierMove_no_target ReadableString env _ _ _ _ _ Hloc Hnone).
      eexists. split; [done|]. split; [done|]. cbn.
      by do 2 apply prefix_app_r.
    + destruct applyChanges.
      * destruct (doVolumeTierMove_dispatches ReadableString env _ _ _ _ _ _ _
                    Hloc Hsplit Hpre Hdst)
          as (w2 & _ & -> & Hactive & Hprefix);
          [rewrite Hidle; set_solver..|].
        eexists. split; [done|]. split; [by rewrite <- Hidle|].
        cbn [log emit]. apply prefix_app_r. etrans; [|exact Hprefix].
        rewrite dispatched_log. cbn. by do 2 apply prefix_app_r.
      * destruct (doVolumeTierMove_dry ReadableString env _ _ _ _ _ _ _
                    Hloc Hsplit Hpre Hdst) as (dst' & _ & ->).
        eexists. split; [done|]. split; [done|]. cbn.
        exists [EvWriter
                  (MsgMoving vid (pickSource (dn_Id (dataNode dst)) locations)
                     (dn_Id (dataNode dst)) (ReadableString toDiskType));
                EvWait].
        by rewrite <- app_assoc.
  - rewrite (doVolumeTierMove_not_found ReadableString env _ _ _ _ _ Hloc).
    eexists. split; [done|]. by split.
Qed.

(** The loop of [Do] works through every candidate: it returns nil, and
    the log holds the lookup of each volume and a line on standard
    output for each volume that could not be found. *)
Lemma rangeVolumeIds_returns volumeIds toDiskType applyChange w :
  activeServers w = ∅ ->
  exists w',
    rangeVolumeIds volumeIds toDiskType applyChange w = (w', Returned None)
    /\ activeServers w' = ∅
    /\ log w `prefix_of` log w'
    /\ (forall vid,
          vid ∈ volumeIds ->
          EvGetLocations vid (GetLocations env vid).2 ∈ log w'
          /\ ((GetLocations env vid).2 = false ->
              EvStdout (MsgTierMoveVolume vid (ErrVolumeNotFound vid))
                ∈ log w')).
Proof.
  revert w. induction volumeIds as [|vid rest IH]; intros w Hidle.
  - exists w. split; [done|]. split; [done|]. split; [done|].
    intros vid Hin. by apply elem_of_nil in Hin.
  - step_rangeVolumeIds.
    destruct (doVolumeTierMove_returns vid toDiskType applyChange w Hidle)
      as (w1 & -> & Hidle1 & Hlog1).
    set (w2 := match (if (GetLocations env vid).2 then None
                      else Some (ErrVolumeNotFound vid)) with
               | Some e => emit (EvStdout (MsgTierMoveVolume vid e)) w1
               | None => w1
               end).
    assert (activeServers w2 = ∅) as Hidle2
      by (subst w2; by destruct (GetLocations env vid).2).
    assert (log w1 `prefix_of` log w2) as Hlog2.
    { subst w2. destruct (GetLocations env vid).2; [done|].
      cbn. by apply prefix_app_r. }
    destruct (IH w2 Hidle2) as (w' & -> & Hidle' & Hlog' & Hall).
    exists w'. split; [done|]. split; [done|]. split.
    { etrans; [|exact Hlog']. etrans; [|exact Hlog2].
      etrans; [|exact Hlog1]. by apply prefix_app_r. }
    intros v [->|Hin]%elem_of_cons; [|by apply Hall].
    assert (forall ev, ev ∈ log w2 -> ev ∈ log w') as Hkeep.
    { intros ev Hev. destruct Hlog' as [k ->]. set_solver. }
    split.
    + apply Hkeep. destruct Hlog2 as [k ->]. destruct Hlog1 as [k' ->].
      set_solver.
    + intros Hmissing. apply Hkeep. subst w2. rewrite Hmissing. cbn.
      set_solver.
Qed.

(** C6, as the code has it: a missing lock, identical disk types and a
    failed topology fetch end [Do] with that error before anything is
    logged, selected or moved; a flag parse error ends it just as early
    but with a nil error.  Once the set-up has passed, [Do] returns nil
    whatever happens to single volumes: every candidate is looked up,
    and a volume that is not found is reported on standard output. *)
Theorem fatal_setup_aborts_run args :
  let idle := {| allLocations := []; activeServers := ∅; log := [] |} in
  (forall e,
     confirmIsLocked env = Some e -> Do args = (idle, Returned (Some e)))
  /\ (forall e,
        confirmIsLocked env = None -> Parse args = inl e ->
        Do args = (idle, Returned None))
  /\ (forall flags,
        confirmIsLocked env = None -> Parse args = inr flags ->
        ToDiskType (flag_fromDiskType flags)
        = ToDiskType (flag_toDiskType flags) ->
        Do args
        = (idle,
           Returned (Some (ErrSameTier
                             (ToDiskType (flag_fromDiskType flags))
                             (ToDiskType (flag_toDiskType flags))))))
  /\ (forall flags e,
        confirmIsLocked env = None -> Parse args = inr flags ->
        ToDiskType (flag_fromDiskType flags)
        <> ToDiskType (flag_toDiskType flags) ->
        collectTopologyInfo env = inl e ->
        Do args = (idle, Returned (Some e)))
  /\ (forall flags topologyInfo volumeSizeLimitMb,
        confirmIsLocked env = None -> Parse args = inr flags ->
        ToDiskType (flag_fromDiskType flags)
        <> ToDiskType (flag_toDiskType flags) ->
        collectTopologyInfo env = inr (topologyInfo, volumeSizeLimitMb) ->
        exists w',
          Do args = (w', Returned None)
          /\ forall vid,
               vid ∈ (collectVolumeIdsForTierChange ToDiskType Match
                        volumeSizeLimitMb
                        (ToDiskType (flag_fromDiskType flags))
                        (flag_collectionPattern flags)
                        (flag_fullPercent flags) (flag_quietFor flags)
                        (timeNowUnix env) topologyInfo).1 ->
               EvGetLocations vid (GetLocations env vid).2 ∈ log w'
               /\ ((GetLocations env vid).2 = false ->
                   EvStdout (MsgTierMoveVolume vid (ErrVolumeNotFound vid))
                     ∈ log w')).
Proof.
  intros idle. unfold_Do. fold idle. repeat split.
  - by intros e ->.
  - by intros e -> ->.
  - intros flags -> -> Hsame. by rewrite decide_True.
  - intros flags e -> -> Hne ->. by rewrite decide_False.
  - intros flags topologyInfo volumeSizeLimitMb -> -> Hne ->.
    rewrite decide_False by done.
    unfold collectVolumeIdsForTierChange. cbn [fst snd].
    match goal with |- context [rangeVolumeIds ?vids ?t ?a ?w] =>
      destruct (rangeVolumeIds_returns vids t a w eq_refl)
        as (w' & -> & _ & _ & Hall) end.
    by exists w'.
Qed.

End RunFacts.

(** C6, as stated, fails on the code: a flag parse error is no error to
    the caller. *)
Lemma flag_parse_error_returns_nil :
  Do Sample.ToDiskType Sample.ReadableString Sample.Match Sample.rejectFlags
    (Sample.environment Sample.allSucceed) ["-bogus"]
  = (Sample.idle, Returned None).
Proof. reflexivity. Qed.

(** C2: with changes applied and two candidates, the goroutine moving
    volume 2 has reached its [wg.Done()] and [wg.Wait()] has returned
    before volume 1 is even looked up: the moves run one after the
    other. *)
Theorem moves_run_one_after_the_other :
  log (Sample.run true Sample.allSucceed).1
  = [EvStdout (MsgCollect "" 3600);
     EvStdout (MsgTierMoveVolumes [2; 1]);
     EvGetLocations 2 true;
     EvWriter (MsgMoving 2 "a" "d" "ssd");
     EvGo 2 "a" "d";
     EvRpc (MarkVolumeReadonly 2 (Sample.at_ ["a"])) None;
     EvRpc (LiveMoveVolume 2 "a" "d" 5000000000 "ssd" true) None;
     EvDone 2;
     EvWait;
     EvGetLocations 1 true;
     EvWriter (MsgMoving 1 "b" "d" "ssd");
     EvGo 1 "b" "d";
     EvRpc (MarkVolumeReadonly 1 (Sample.at_ ["a"; "b"])) None;
     EvRpc (LiveMoveVolume 1 "b" "d" 5000000000 "ssd" true) None;
     EvRpc (DeleteVolume 1 "a") None;
     EvDone 1;
     EvWait]
  /\ (Sample.run true Sample.allSucceed).2 = Returned None.
Proof. split; reflexivity. Qed.

Lemma delete_failure_is_logged_only_witness :
  let env := Sample.environment (Sample.deleteFails "a") in
  let locations := Sample.at_ ["a"; "b"; "c"] in
  let busy := ErrExternal "connection refused" in
  copySucceeds Sample.ReadableString env 3 "ssd" locations "c" "d"
    Sample.beforeMove
  /\ exists l' evs,
       doMoveOneVolume Sample.ReadableString env 3 "ssd" locations "c" 0
         Sample.beforeMove
       = ({| allLocations := [l']; activeServers := ∅;
             log := (copied Sample.ReadableString 3 "ssd" locations "c" "d"
                       Sample.beforeMove ++ evs)%list |},
          Returned None)
       /\ cleanupTrace 3 "d" "c" locations evs
       /\ EvWriter (MsgDeleteFailed 3 "a" busy) ∈ evs
       /\ EvRpc (DeleteVolume 3 "b") None ∈ evs.
Proof.
  cbv zeta.
  assert (copySucceeds Sample.ReadableString
            (Sample.environment (Sample.deleteFails "a")) 3 "ssd"
            (Sample.at_ ["a"; "b"; "c"]) "c" "d" Sample.beforeMove) as Hcopy
    by (split; reflexivity).
  split; [exact Hcopy|].
  destruct (delete_failure_is_logged_only Sample.ReadableString
              (Sample.environment (Sample.deleteFails "a")) 3 "ssd"
              (Sample.at_ ["a"; "b"; "c"]) "c" 0 Sample.beforeMove
              (Sample.server "d" [("ssd", Sample.disk 0 7 [])])
              (Sample.disk 0 7 []) eq_refl Hcopy eq_refl)
    as (l' & evs & Hrun & Htrace & Hall & Hlogged & _).
  exists l', evs. split; [exact Hrun|]. split; [exact Htrace|].
  assert (EvRpc (DeleteVolume 3 "a") (Some (ErrExternal "connection refused"))
            ∈ evs /\ EvRpc (DeleteVolume 3 "b") None ∈ evs) as [Ha Hb].
  { cbv in Hrun. injection Hrun as _ Hevs. subst evs. set_solver. }
  split; [|exact Hb].
  destruct (Hlogged _ _ Ha) as (url & Hurl & Hmsg).
  injection Hurl as <-. exact Hmsg.
Defined.

Lemma three_replicas_leave_two_witness :
  let env := Sample.environment (Sample.deleteFails "a") in
  let locations := Sample.at_ ["a"; "b"; "c"] in
  let run :=
    doMoveOneVolume Sample.ReadableString env 3 "ssd" locations "c" 0
      Sample.beforeMove in
  let evs := drop (length (log Sample.beforeMove)) (log run.1) in
  let holders := replicasAfter 3 (list_to_set (Url <$> locations)) evs in
  NoDup (Url <$> locations)
  /\ run.2 = Returned None
  /\ failedDeletes 3 evs = ["a"]
  /\ holders = {["d"; "c"]} ∪ list_to_set (failedDeletes 3 evs)
  /\ size holders = (2 + length (failedDeletes 3%Z evs))%nat.
Proof.
  cbv zeta.
  assert (NoDup (Url <$> Sample.at_ ["a"; "b"; "c"])) as Hnd
    by compute_done.
  split; [exact Hnd|]. split; [reflexivity|]. split; [reflexivity|].
  destruct (three_replicas_leave_two Sample.ReadableString
              (Sample.environment (Sample.deleteFails "a")) 3 "ssd"
              (Sample.at_ ["a"; "b"; "c"]) "c" 0 Sample.beforeMove
              (doMoveOneVolume Sample.ReadableString
                 (Sample.environment (Sample.deleteFails "a")) 3 "ssd"
                 (Sample.at_ ["a"; "b"; "c"]) "c" 0 Sample.beforeMove).1
              (Sample.server "d" [("ssd", Sample.disk 0 7 [])])
              Hnd eq_refl ltac:(compute_done) ltac:(compute_done) eq_refl)
    as (Hholders & Hsize & _).
  split; [exact Hholders|exact Hsize].
Defined.

Lemma readonly_failure_aborts_volume_witness :
  let env := Sample.environment (Sample.markFails 1) in
  let busy := ErrExternal "volume is busy" in
  let locations := Sample.at_ ["a"; "b"] in
  let mark := MarkVolumeReadonly 1 locations in
  let err := ErrMarkReadonly 1 "a" busy in
  let started :=
    dispatched Sample.ReadableString 1 "ssd" "b" "d" Sample.start in
  let finished :=
    {| allLocations := keepDataNodesSorted (allLocations Sample.start) "ssd";
       activeServers := ∅;
       log := (log started
               ++ [EvRpc mark (Some busy);
                   EvWriter (MsgMoveFailed 1 "b" "d" err);
                   EvDone 1; EvWait])%list |} in
  rpcResult env (log started) mark = Some busy
  /\ doMoveOneVolume Sample.ReadableString env 1 "ssd" locations "b" 0 started
     = (emit (EvRpc mark (Some busy)) started, Returned (Some err))
  /\ doVolumeTierMove Sample.ReadableString env 1 "ssd" true Sample.start
     = (finished, Returned None)
  /\ rangeVolumeIds Sample.ReadableString env [1; 2] "ssd" true Sample.start
     = rangeVolumeIds Sample.ReadableString env [2] "ssd" true finished.
Proof.
  cbv zeta. split; [reflexivity|].
  apply (readonly_failure_aborts_volume Sample.ReadableString
           (Sample.environment (Sample.markFails 1)) 1 "ssd" Sample.start
           {| Url := "a" |} [{| Url := "b" |}] []
           (Sample.server "d" [("ssd", Sample.disk 0 7 [])])
           [Sample.server "c" [("ssd", Sample.disk 0 5 [])];
            Sample.server "a"
              [("", Sample.disk 2 10 [Sample.aged 1 96 (2 * Sample.day);
                                      Sample.aged 2 96 (2 * Sample.day)])];
            Sample.server "b"
              [("", Sample.disk 1 10 [Sample.aged 1 96 (2 * Sample.day)])]]
           (ErrExternal "volume is busy") [2]).
  - reflexivity.
  - reflexivity.
  - constructor.
  - reflexivity.
  - cbn. set_solver.
  - cbn. set_solver.
  - reflexivity.
Defined.

Lemma destination_is_first_viable_witness :
  let env := Sample.environment Sample.allSucceed in
  let locations := Sample.at_ ["a"; "b"] in
  let sorted := keepDataNodesSorted (allLocations Sample.start) "ssd" in
  let run :=
    doVolumeTierMove Sample.ReadableString env 1 "ssd" true Sample.start in
  GetLocations env 1 = (locations, true)
  /\ sorted ≡ₚ allLocations Sample.start
  /\ StronglySorted (ranksBefore "ssd") sorted
  /\ viable "ssd" locations
       (Sample.server "d" [("ssd", Sample.disk 0 7 [])]) = true
  /\ pickSource "d" locations = "b"
  /\ log (dispatched Sample.ReadableString 1 "ssd" "b" "d" Sample.start)
       `prefix_of` log run.1
  /\ run.2 = Returned None.
Proof.
  cbv zeta. split; [reflexivity|].
  destruct (destination_is_first_viable Sample.ReadableString
              (Sample.environment Sample.allSucceed) 1 "ssd" true
              Sample.start (Sample.at_ ["a"; "b"]) eq_refl)
    as (Hperm & Hsorted & _ & _ & Hpick).
  split; [exact Hperm|]. split; [exact Hsorted|].
  split; [reflexivity|]. split; [reflexivity|].
  destruct (Hpick []
              (Sample.server "d" [("ssd", Sample.disk 0 7 [])])
              [Sample.server "c" [("ssd", Sample.disk 0 5 [])];
               Sample.server "a"
                 [("", Sample.disk 2 10
                         [Sample.aged 1 96 (2 * Sample.day);
                          Sample.aged 2 96 (2 * Sample.day)])];
               Sample.server "b"
                 [("", Sample.disk 1 10
                         [Sample.aged 1 96 (2 * Sample.day)])]]
              eq_refl (Forall_nil_2 _) eq_refl)
    as (_ & _ & _ & _ & Hgo).
  apply Hgo; [reflexivity| |]; cbn; set_solver.
Defined.

(** * Further properties of the command *)

(** ** Replica addresses *)

(** X1: [isOneOf] tells exactly whether one of the locations has the
    server as its address; with no location it answers false. *)
Theorem isOneOf_iff_some_location_matches server locations :
  (isOneOf server locations = true
   <-> exists loc, loc ∈ locations /\ Url loc = server)
  /\ isOneOf server [] = false.
Proof.
  split; [|reflexivity].
  induction locations as [|loc rest IH]; cbn.
  - split; [done|]. intros (loc & Hin & _). by apply elem_of_nil in Hin.
  - destruct (decide (server = Url loc)) as [->|Hne].
    + split; [|done]. intros _. exists loc. split; [left|done].
    + rewrite IH. split.
      * intros (l & Hin & Hl). exists l. split; [by right|done].
      * intros (l & [->|Hin]%elem_of_cons & Hl); [congruence|].
        by exists l.
Qed.

Lemma pickSource_snoc dstId locations loc :
  pickSource dstId (locations ++ [loc])
  = if decide (Url loc <> dstId) then Url loc
    else pickSource dstId locations.
Proof. unfold_pickSource. by rewrite foldl_app. Qed.

(** X2: the source of the copy is the address of the last location that
    differs from the destination, and the empty address when there is
    none (no location at all, or every location is the destination). *)
Theorem source_is_last_other_replica dstId locations :
  pickSource dstId locations
  = default "" (last (filter (fun u => u <> dstId) (Url <$> locations))).
Proof.
  induction locations as [|loc rest IH] using rev_ind; [done|].
  rewrite pickSource_snoc, fmap_app, filter_app. cbn [fmap list_fmap].
  destruct (decide (Url loc <> dstId)) as [Hne|Heq].
  - rewrite filter_cons_True by done. cbn [filter list_filter].
    by rewrite last_snoc.
  - rewrite filter_cons_False by done. cbn [filter list_filter].
    by rewrite app_nil_r.
Qed.

(** ** What the executor never does *)

Section ExecutorSafety.

Variable ReadableString : DiskType -> string.
Variable env : CommandEnv.

Local Abbreviation doMoveOneVolume := (doMoveOneVolume ReadableString env).
Local Abbreviation copySucceeds := (copySucceeds ReadableString env).

(** X3: whatever the servers answer, the executor's first call is the
    read-only mark, and it issues a delete only in a run that returns
    nil after the mark and the copy both succeeded; that delete is for
    the volume being moved, on the address of one of its locations that
    is neither the source nor the destination. *)
Theorem deletes_follow_successful_copy
    vid toDiskType locations source dst w :
  let run := doMoveOneVolume vid toDiskType locations source dst w in
  exists delta,
    log run.1 = (log w ++ delta)%list
    /\ (exists result rest,
          delta = EvRpc (MarkVolumeReadonly vid locations) result :: rest)
    /\ forall v u result,
         EvRpc (DeleteVolume v u) result ∈ delta ->
         run.2 = Returned None /\ v = vid /\ u <> source
         /\ (exists loc, loc ∈ locations /\ Url loc = u)
         /\ exists l,
              allLocations w !! dst = Some l /\ u <> dn_Id (dataNode l)
              /\ copySucceeds vid toDiskType locations source
                   (dn_Id (dataNode l)) w.
Proof.
  intros run. subst run.
  destruct (rpcResult env (log w) (MarkVolumeReadonly vid locations))
    as [e|] eqn:Hmark.
  { exists [EvRpc (MarkVolumeReadonly vid locations) (Some e)].
    unfold_executor. unfold_call. rewrite Hmark.
    split; [by destruct locations|]. split; [by eexists _, _|].
    intros v u result [=]%list_elem_of_singleton. }
  destruct (allLocations w !! dst) as [l|] eqn:Hl.
  2:{ exists [EvRpc (MarkVolumeReadonly vid locations) None].
      unfold_executor. unfold_call. rewrite Hmark, Hl.
      split; [done|]. split; [by eexists _, _|].
      intros v u result [=]%list_elem_of_singleton. }
  destruct (rpcResult env
              (log w ++ [EvRpc (MarkVolumeReadonly vid locations) None])
              (LiveMoveVolume vid source (dn_Id (dataNode l)) 5000000000
                 (ReadableString toDiskType) true)) as [e|] eqn:Hcopy.
  { eexists [_; _]. unfold_executor. unfold_call.
    rewrite Hmark, Hl, Hcopy.
    split; [destruct locations; cbn; by rewrite <- app_assoc|].
    split; [by eexists _, _|].
    intros v u result [[=]|[=]%list_elem_of_singleton]%elem_of_cons. }
  destruct (lookupDisk toDiskType (DiskInfos (dataNode l))) as [d|] eqn:Hd.
  - destruct (doMoveOneVolume_success ReadableString env vid toDiskType
                locations source dst w l d Hl (conj Hmark Hcopy) Hd)
      as (l' & evs & _ & Htrace & ->).
    eexists (_ :: _ :: evs). cbn [fst snd log]. unfold_copied.
    split; [by rewrite <- app_assoc|]. split; [by eexists _, _|].
    intros v u result [[=]|[[=]|Hin]%elem_of_cons]%elem_of_cons.
    destruct (cleanupTrace_only_stale _ _ _ _ _ Htrace _ _ Hin)
      as (loc & Hloc & [= -> ->] & Hdst & Hsrc).
    split; [done|]. split; [done|]. split; [done|].
    split; [by exists loc|]. exists l. by repeat split.
  - eexists [_; _]. unfold_executor. unfold_call.
    rewrite Hmark, Hl, Hcopy.
    destruct (bumpDestination _ _ _) as [w3|] eqn:Hbump.
    { apply bumpDestination_inv in Hbump as (l0 & d & Hl0 & Hd0).
      cbn in Hl0. rewrite Hl in Hl0. injection Hl0 as <-. congruence. }
    cbn. split; [by rewrite <- app_assoc|]. split; [by eexists _, _|].
    intros v u result [[=]|[=]%list_elem_of_singleton]%elem_of_cons.
Qed.

End ExecutorSafety.

(** ** The shape of one volume's move *)

Lemma cleanupTrace_task_events vid dstId source locations evs :
  cleanupTrace vid dstId source locations evs ->
  Forall (fun ev => isTaskEvent ev = true /\ isCopy ev = false) evs.
Proof.
  induction 1; repeat constructor; done.
Qed.

Lemma countEvents_app p evs1 evs2 :
  countEvents p (evs1 ++ evs2)
  = (countEvents p evs1 + countEvents p evs2)%nat.
Proof. unfold countEvents. by rewrite List.filter_app, length_app. Qed.

Lemma countEvents_none p evs :
  Forall (fun ev => p ev = false) evs -> countEvents p evs = 0%nat.
Proof.
  unfold countEvents. induction 1 as [|ev evs Hev _ IH]; [done|].
  cbn. by rewrite Hev.
Qed.

Lemma lookupsOf_app evs1 evs2 :
  lookupsOf (evs1 ++ evs2) = (lookupsOf evs1 ++ lookupsOf evs2)%list.
Proof. apply omap_app. Qed.

Lemma lookupsOf_task_events evs :
  Forall (fun ev => isTaskEvent ev = true) evs -> lookupsOf evs = [].
Proof.
  induction 1 as [|ev evs Hev _ IH]; [done|].
  unfold lookupsOf in *. cbn. rewrite IH. by destruct ev.
Qed.

Lemma cleanupTrace_quiet vid dstId source locations evs :
  cleanupTrace vid dstId source locations evs ->
  lookupsOf evs = [] /\ countEvents isDispatch evs = 0%nat
  /\ countEvents isCopy evs = 0%nat.
Proof.
  intros Htrace%cleanupTrace_task_events. split; [|split].
  - apply lookupsOf_task_events. eapply Forall_impl; [done|]. by intros ? [].
  - apply countEvents_none. eapply Forall_impl; [done|].
    intros ev [Hev _]. by destruct ev.
  - apply countEvents_none. eapply Forall_impl; [done|]. by intros ? [].
Qed.

Lemma cleanupTrace_flight vid dstId source locations evs alive :
  cleanupTrace vid dstId source locations evs ->
  foldl flightStep (Some alive) evs = Some alive.
Proof.
  induction 1 as [|loc rest evs _ _ IH|loc rest evs _ _ _ IH
                  |loc rest evs e _ _ _ IH]; [done|done| |];
    cbn; by destruct alive.
Qed.

Lemma cleanupTrace_announces_nothing vid dstId source locations evs :
  cleanupTrace vid dstId source locations evs -> announcementsOf evs = [].
Proof. induction 1; unfold announcementsOf in *; by cbn. Qed.

Section MoveShape.

Variable ReadableString : DiskType -> string.
Variable env : CommandEnv.

Local Abbreviation doMoveOneVolume := (doMoveOneVolume ReadableString env).
Local Abbreviation runTask := (runTask ReadableString env).
Local Abbreviation doVolumeTierMove := (doVolumeTierMove ReadableString env).
Local Abbreviation rangeVolumeIds := (rangeVolumeIds ReadableString env).
Local Abbreviation dispatched := (dispatched ReadableString).
Local Abbreviation announced := (announced ReadableString).
Local Abbreviation copySucceeds := (copySucceeds ReadableString env).

(** The three ways a goroutine of the loop ends. *)
Lemma runTask_shape vid toDiskType loc0 rest source i w l d :
  allLocations w !! i = Some l ->
  lookupDisk toDiskType (DiskInfos (dataNode l)) = Some d ->
  let locations := loc0 :: rest in
  let dstId := dn_Id (dataNode l) in
  let mark := MarkVolumeReadonly vid locations in
  let copy := LiveMoveVolume vid source dstId 5000000000
                (ReadableString toDiskType) true in
  let freed := activeServers w ∖ {[source]} ∖ {[dstId]} in
  let t := {| t_vid := vid; t_locations := locations; t_source := source;
              t_dst := i |} in
  (exists e,
     rpcResult env (log w) mark = Some e
     /\ runTask toDiskType t w
        = Some {| allLocations := allLocations w; activeServers := freed;
                  log := (log w
                          ++ [EvRpc mark (Some e);
                              EvWriter
                                (MsgMoveFailed vid source dstId
                                   (ErrMarkReadonly vid (Url loc0) e));
                              EvDone vid])%list |})
  \/ (exists e,
        rpcResult env (log w) mark = None
        /\ rpcResult env (log w ++ [EvRpc mark None]) copy = Some e
        /\ runTask toDiskType t w
           = Some {| allLocations := allLocations w; activeServers := freed;
                     log := (log w
                             ++ [EvRpc mark None; EvRpc copy (Some e);
                                 EvWriter
                                   (MsgMoveFailed vid source dstId
                                      (ErrMove vid (Url loc0) dstId e));
                                 EvDone vid])%list |})
  \/ (copySucceeds vid toDiskType locations source dstId w
      /\ exists l' evs,
           bumped toDiskType l l'
           /\ cleanupTrace vid dstId source locations evs
           /\ runTask toDiskType t w
              = Some {| allLocations := <[i := l']> (allLocations w);
                        activeServers := freed;
                        log := (log w
                                ++ [EvRpc mark None; EvRpc copy None]
                                ++ evs ++ [EvDone vid])%list |}).
Proof.
  intros Hl Hd locations dstId mark copy freed t. unfold_runTask.
  subst t. cbn [t_vid t_locations t_source t_dst].
  rewrite Hl. cbn [mbind option_bind]. fold dstId.
  destruct (rpcResult env (log w) mark) as [e|] eqn:Hmark.
  { left. exists e. split; [done|].
    subst mark locations.
    rewrite (doMoveOneVolume_mark_failed _ _ _ _ _ _ _ _ _ _ Hmark).
    unfold emit, release. cbn. by rewrite <- !app_assoc. }
  right.
  destruct (rpcResult env (log w ++ [EvRpc mark None]) copy) as [e|] eqn:Hcopy.
  { left. exists e. split; [done|]. split; [done|].
    subst mark copy locations dstId.
    rewrite (doMoveOneVolume_copy_failed _ _ _ _ _ _ _ _ _ _ _
               Hmark Hl Hcopy).
    unfold emit, release. cbn. by rewrite <- !app_assoc. }
  right. split; [by split|].
  destruct (doMoveOneVolume_success ReadableString env vid toDiskType
              locations source i w l d Hl (conj Hmark Hcopy) Hd)
    as (l' & evs & Hbump & Htrace & ->).
  exists l', evs. split; [done|]. split; [done|].
  unfold emit, release. cbn. unfold_copied. by rewrite <- !app_assoc.
Qed.

(** What one call of [doVolumeTierMove] adds to the log and does to the
    locations, in every case. *)
Lemma doVolumeTierMove_shape vid toDiskType applyChanges w :
  let sorted := keepDataNodesSorted (allLocations w) toDiskType in
  let run := doVolumeTierMove vid toDiskType applyChanges w in
  exists delta,
    log run.1
    = (log w ++ EvGetLocations vid (GetLocations env vid).2 :: delta)%list
    /\ lookupsOf delta = []
    /\ foldl flightStep (Some false) delta = Some false
    /\ (countEvents isCopy delta <= countEvents isDispatch delta <= 1)%nat
    /\ (applyChanges = false -> countEvents isDispatch delta = 0%nat)
    /\ (allLocations run.1 = allLocations w
        \/ allLocations run.1 = sorted
        \/ exists locations pre dst dst' post,
             GetLocations env vid = (locations, true)
             /\ sorted = (pre ++ dst :: post)%list
             /\ Forall (fun dst => viable toDiskType locations dst = false)
                  pre
             /\ viable toDiskType locations dst = true
             /\ bumped toDiskType dst dst'
             /\ allLocations run.1 = (pre ++ dst' :: post)%list).
Proof.
  intros sorted run. subst run.
  destruct (GetLocations env vid) as [locations [|]] eqn:Hloc; cbn [snd].
  2:{ rewrite (doVolumeTierMove_not_found ReadableString env _ _ _ _ _ Hloc).
      exists []. split; [done|]. split; [done|]. split; [done|].
      split; [cbn; lia|]. split; [done|]. by left. }
  destruct (first_viable toDiskType locations sorted)
    as [Hnone|(pre & dst & post & Hsplit & Hpre & Hdst)].
  { rewrite (doVolumeTierMove_no_target ReadableString env _ _ _ _ _ Hloc Hnone).
    exists [EvWait;
            EvWriter (MsgCanNotFind (ReadableString toDiskType) vid)].
    split; [cbn; by rewrite <- !app_assoc|]. split; [done|].
    split; [done|].
    split; [cbn; lia|]. split; [done|]. right. by left. }
  set (dstId := dn_Id (dataNode dst)).
  set (source := pickSource dstId locations).
  set (moving := EvWriter (MsgMoving vid source dstId
                             (ReadableString toDiskType))).
  destruct applyChanges.
  2:{ destruct (doVolumeTierMove_dry ReadableString env _ _ _ _ _ _ _
                    Hloc Hsplit Hpre Hdst)
        as (dst' & Hbump & ->).
      exists [moving; EvWait].
      split; [done|]. split; [done|]. split; [done|].
      split; [cbn; lia|]. split; [done|].
      right. right. by exists locations, pre, dst, dst', post. }
  rewrite (doVolumeTierMove_apply ReadableString env _ _ _ _ _ _ _
             Hloc Hsplit Hpre Hdst).
  fold dstId. fold source.
  destruct (decide (source ∈ activeServers w \/ dstId ∈ activeServers w)).
  { exists [moving].
    split; [cbn; by rewrite <- !app_assoc|]. split; [done|].
    split; [done|].
    split; [cbn; lia|]. split; [done|]. right. by left. }
  destruct (viable_elim _ _ _ Hdst) as (Hcap & _ & Hpick).
  apply free_capacity_has_disk in Hcap as [d Hd].
  destruct locations as [|loc0 rest]; [done|].
  assert (allLocations (dispatched vid toDiskType source dstId w)
          !! length pre = Some dst) as Hl.
  { rewrite dispatched_locations. fold sorted. rewrite Hsplit.
    by apply list_lookup_middle. }
  assert (log (dispatched vid toDiskType source dstId w)
          = (log w ++ [EvGetLocations vid true; moving;
                       EvGo vid source dstId])%list) as Hlog.
  { cbn. by rewrite <- !app_assoc. }
  destruct (runTask_shape vid toDiskType loc0 rest source (length pre)
              (dispatched vid toDiskType source dstId w) dst d Hl Hd)
    as [(e & _ & ->)|[(e & _ & _ & ->)|(_ & l' & evs & Hbump & Htrace & ->)]];
    fold dstId; cbn [fst log emit allLocations]; rewrite Hlog.
  - eexists (moving :: EvGo vid source dstId :: _ :: _ :: _ :: [EvWait]).
    split; [by rewrite <- !app_assoc|]. split; [done|].
    split; [done|].
    split; [cbn; lia|]. split; [done|]. right. by left.
  - eexists (moving :: EvGo vid source dstId :: _ :: _ :: _ :: _
             :: [EvWait]).
    split; [by rewrite <- !app_assoc|]. split; [done|].
    split; [done|].
    split; [cbn; lia|]. split; [done|]. right. by left.
  - destruct (cleanupTrace_quiet _ _ _ _ _ Htrace) as (Hq1 & Hq2 & Hq3).
    exists (moving :: EvGo vid source dstId
            :: EvRpc (MarkVolumeReadonly vid (loc0 :: rest)) None
            :: EvRpc (LiveMoveVolume vid source dstId 5000000000
                        (ReadableString toDiskType) true) None
            :: evs ++ [EvDone vid; EvWait]).
    split.
    { rewrite <- !app_assoc. cbn. by rewrite <- ?app_assoc. }
    split.
    { change (lookupsOf (evs ++ [EvDone vid; EvWait]) = []).
      by rewrite lookupsOf_app, Hq1. }
    split.
    { cbn. by rewrite foldl_app, (cleanupTrace_flight _ _ _ _ _ _ Htrace). }
    split.
    { unfold countEvents in *. cbn. rewrite !List.filter_app, !length_app.
      rewrite Hq2, Hq3. cbn. lia. }
    split; [done|]. right. right.
    exists (loc0 :: rest), pre, dst, l', post.
    do 5 (split; [done|]). rewrite dispatched_locations.
    fold sorted. rewrite Hsplit.
    replace (length pre) with (length pre + 0)%nat by lia.
    by rewrite insert_app_r.
Qed.

End MoveShape.

(** ** One call of the coordinator *)

Lemma lookupDisk_middle key before d after :
  key ∉ fst <$> before ->
  lookupDisk key (before ++ (key, d) :: after) = Some d.
Proof.
  induction before as [|[k d'] before IH]; cbn [app]; unfold_lookupDisk.
  - intros _. by rewrite bool_decide_eq_true_2.
  - intros Hfresh. rewrite bool_decide_eq_false_2 by set_solver.
    apply IH. set_solver.
Qed.

(** A bumped location has one free slot less. *)
Lemma bumped_capacity toDiskType l l' :
  bumped toDiskType l l' ->
  capacityByFreeVolumeCount toDiskType (dataNode l')
  = capacityByFreeVolumeCount toDiskType (dataNode l) - 1.
Proof.
  intros (_ & _ & _ & before & d & after & Hl & Hfresh & Hl').
  unfold capacityByFreeVolumeCount. rewrite Hl, Hl'.
  rewrite !lookupDisk_middle by done. cbn. lia.
Qed.

Section CallFacts.

Variable ReadableString : DiskType -> string.
Variable env : CommandEnv.

Local Abbreviation doVolumeTierMove := (doVolumeTierMove ReadableString env).
Local Abbreviation rangeVolumeIds := (rangeVolumeIds ReadableString env).
Local Abbreviation dispatched := (dispatched ReadableString).

(** X4: one call of [doVolumeTierMove] starts at most one goroutine and
    issues at most one live copy, however many locations have free
    capacity, and no copy without a goroutine; in a dry run it starts
    none. *)
Theorem one_move_per_call vid toDiskType applyChanges w :
  let run := doVolumeTierMove vid toDiskType applyChanges w in
  exists delta,
    log run.1 = (log w ++ delta)%list
    /\ (countEvents isCopy delta <= countEvents isDispatch delta <= 1)%nat
    /\ (applyChanges = false -> countEvents isDispatch delta = 0%nat).
Proof.
  intros run.
  destruct (doVolumeTierMove_shape ReadableString env vid toDiskType
              applyChanges w) as (delta & Hlog & _ & _ & Hcount & Hdry & _).
  exists (EvGetLocations vid (GetLocations env vid).2 :: delta).
  split; [done|]. split; [exact Hcount|exact Hdry].
Qed.

(** X5: in either mode a call leaves the data nodes as they were, up to
    the order of the slice, or changes exactly one of them: the first
    viable destination of the ranked slice, whose volume count for the
    target tier goes up by one. *)
Theorem move_changes_one_counter_at_most vid toDiskType applyChanges w :
  let sorted := keepDataNodesSorted (allLocations w) toDiskType in
  let after := allLocations (doVolumeTierMove vid toDiskType applyChanges w).1 in
  after ≡ₚ allLocations w
  \/ exists locations pre dst dst' post,
       GetLocations env vid = (locations, true)
       /\ sorted = (pre ++ dst :: post)%list
       /\ Forall (fun dst => viable toDiskType locations dst = false) pre
       /\ viable toDiskType locations dst = true
       /\ bumped toDiskType dst dst'
       /\ after = (pre ++ dst' :: post)%list.
Proof.
  intros sorted after.
  destruct (doVolumeTierMove_shape ReadableString env vid toDiskType
              applyChanges w) as (_ & _ & _ & _ & _ & _ & [Hsame|[Hsort|Hbump]]).
  - left. subst after. by rewrite Hsame.
  - left. subst after. rewrite Hsort. apply keepDataNodesSorted_perm.
  - by right.
Qed.

(** X6: a call never takes a node below zero free capacity for the
    target tier: when no location is over-committed before the call,
    none is after it. *)
Theorem capacity_never_overcommitted vid toDiskType applyChanges w :
  Forall (fun l => 0 <= capacityByFreeVolumeCount toDiskType (dataNode l))
    (allLocations w) ->
  Forall (fun l => 0 <= capacityByFreeVolumeCount toDiskType (dataNode l))
    (allLocations (doVolumeTierMove vid toDiskType applyChanges w).1).
Proof.
  intros Hfits.
  assert (Forall (fun l => 0 <= capacityByFreeVolumeCount toDiskType
                                  (dataNode l))
            (keepDataNodesSorted (allLocations w) toDiskType)) as Hsorted
    by (by rewrite keepDataNodesSorted_perm).
  destruct (doVolumeTierMove_shape ReadableString env vid toDiskType
              applyChanges w)
    as (_ & _ & _ & _ & _ & _
        & [->|[->|(locations & pre & dst & dst' & post & _ & Hsplit & _
                   & Hdst & Hbump & ->)]]); [done..|].
  rewrite Hsplit in Hsorted.
  apply Forall_app in Hsorted as [Hpre Hrest].
  apply Forall_cons in Hrest as [_ Hpost].
  apply Forall_app. split; [done|]. constructor; [|done].
  rewrite (bumped_capacity _ _ _ Hbump).
  apply viable_elim in Hdst as [Hcap _]. lia.
Qed.

(** X7: a volume the master knows but gives no address for is not moved:
    every location is passed over for lack of a source, and the call
    prints that it can not find the disk type and returns nil. *)
Theorem volume_without_address_is_not_moved vid toDiskType applyChanges w :
  GetLocations env vid = ([], true) ->
  doVolumeTierMove vid toDiskType applyChanges w
  = (emit (EvWriter (MsgCanNotFind (ReadableString toDiskType) vid))
       (emit EvWait
          (sortLocations toDiskType (emit (EvGetLocations vid true) w))),
     Returned None).
Proof.
  intros Hloc.
  apply (doVolumeTierMove_no_target ReadableString env _ _ _ _ [] Hloc).
  apply Forall_forall. intros dst _. unfold_viable. cbn.
  by rewrite andb_false_r.
Qed.

End CallFacts.

Section CopyFailure.

Variable ReadableString : DiskType -> string.
Variable env : CommandEnv.

Local Abbreviation doVolumeTierMove := (doVolumeTierMove ReadableString env).
Local Abbreviation rangeVolumeIds := (rangeVolumeIds ReadableString env).
Local Abbreviation dispatched := (dispatched ReadableString).

(** X8: when the live copy fails after the replicas were marked
    read-only, the move of that volume ends there: no delete is issued,
    no counter is changed and no call undoes the read-only mark.  The
    goroutine prints the error, which names the first location of the
    volume rather than the source of the copy, releases its two servers,
    [doVolumeTierMove] returns nil and the loop of [Do] goes on. *)
Theorem copy_failure_aborts_volume
    vid toDiskType w loc0 rest pre dst post e vids :
  let locations := loc0 :: rest in
  let dstId := dn_Id (dataNode dst) in
  let source := pickSource dstId locations in
  let mark := MarkVolumeReadonly vid locations in
  let copy := LiveMoveVolume vid source dstId 5000000000
                (ReadableString toDiskType) true in
  let err := ErrMove vid (Url loc0) dstId e in
  let started := dispatched vid toDiskType source dstId w in
  let finished :=
    {| allLocations := keepDataNodesSorted (allLocations w) toDiskType;
       activeServers := activeServers w;
       log := (log started
               ++ [EvRpc mark None; EvRpc copy (Some e);
                   EvWriter (MsgMoveFailed vid source dstId err);
                   EvDone vid; EvWait])%list |} in
  GetLocations env vid = (locations, true) ->
  keepDataNodesSorted (allLocations w) toDiskType
  = (pre ++ dst :: post)%list ->
  Forall (fun dst => viable toDiskType locations dst = false) pre ->
  viable toDiskType locations dst = true ->
  source ∉ activeServers w -> dstId ∉ activeServers w ->
  rpcResult env (log started) mark = None ->
  rpcResult env (log started ++ [EvRpc mark None]) copy = Some e ->
  doVolumeTierMove vid toDiskType true w = (finished, Returned None)
  /\ rangeVolumeIds (vid :: vids) toDiskType true w
     = rangeVolumeIds vids toDiskType true finished.
Proof.
  intros locations dstId source mark copy err started finished
    Hloc Hsplit Hpre Hdst Hsrcfree Hdstfree Hmark Hcopy.
  assert (doVolumeTierMove vid toDiskType true w = (finished, Returned None))
    as Hmove.
  { rewrite (doVolumeTierMove_apply ReadableString env _ _ _ _ _ _ _
               Hloc Hsplit Hpre Hdst).
    fold locations dstId. fold source. rewrite decide_False by tauto.
    fold started.
    destruct (viable_elim _ _ _ Hdst) as (Hcap & _ & _).
    apply free_capacity_has_disk in Hcap as [d Hd].
    assert (allLocations started !! length pre = Some dst) as Hl.
    { subst started. rewrite dispatched_locations, Hsplit.
      by apply list_lookup_middle. }
    destruct (runTask_shape ReadableString env vid toDiskType loc0 rest
                source (length pre) started dst d Hl Hd)
      as [(e' & Hmark' & _)|[(e' & _ & Hcopy' & Hrun)|([_ Hcopy'] & _)]].
    - fold locations mark in Hmark'. congruence.
    - fold locations dstId mark in Hcopy'. fold copy in Hcopy'.
      assert (e' = e) as -> by congruence.
      fold locations in Hrun. rewrite Hrun.
      subst finished. unfold emit. cbn [allLocations activeServers log].
      f_equal. f_equal.
      + subst started. cbn. fold dstId. set_solver.
      + by rewrite <- !app_assoc.
    - fold locations dstId mark in Hcopy'. fold copy in Hcopy'. congruence. }
  split; [done|]. step_rangeVolumeIds. by rewrite Hmove.
Qed.

End CopyFailure.

Lemma copy_failure_aborts_volume_witness :
  let env := Sample.environment (Sample.copyFails 1) in
  let late := ErrExternal "copy timed out" in
  let locations := Sample.at_ ["a"; "b"] in
  let mark := MarkVolumeReadonly 1 locations in
  let copy := LiveMoveVolume 1 "b" "d" 5000000000 "ssd" true in
  let started :=
    dispatched Sample.ReadableString 1 "ssd" "b" "d" Sample.start in
  let finished :=
    {| allLocations := keepDataNodesSorted (allLocations Sample.start) "ssd";
       activeServers := ∅;
       log := (log started
               ++ [EvRpc mark None; EvRpc copy (Some late);
                   EvWriter (MsgMoveFailed 1 "b" "d"
                               (ErrMove 1 "a" "d" late));
                   EvDone 1; EvWait])%list |} in
  rpcResult env (log started ++ [EvRpc mark None]) copy = Some late
  /\ doVolumeTierMove Sample.ReadableString env 1 "ssd" true Sample.start
     = (finished, Returned None)
  /\ rangeVolumeIds Sample.ReadableString env [1; 2] "ssd" true Sample.start
     = rangeVolumeIds Sample.ReadableString env [2] "ssd" true finished.
Proof.
  cbv zeta. split; [reflexivity|].
  apply (copy_failure_aborts_volume Sample.ReadableString
           (Sample.environment (Sample.copyFails 1)) 1 "ssd" Sample.start
           {| Url := "a" |} [{| Url := "b" |}] []
           (Sample.server "d" [("ssd", Sample.disk 0 7 [])])
           [Sample.server "c" [("ssd", Sample.disk 0 5 [])];
            Sample.server "a"
              [("", Sample.disk 2 10 [Sample.aged 1 96 (2 * Sample.day);
                                      Sample.aged 2 96 (2 * Sample.day)])];
            Sample.server "b"
              [("", Sample.disk 1 10 [Sample.aged 1 96 (2 * Sample.day)])]]
           (ErrExternal "copy timed out") [2]).
  - reflexivity.
  - reflexivity.
  - constructor.
  - reflexivity.
  - cbn. set_solver.
  - cbn. set_solver.
  - reflexivity.
  - reflexivity.
Defined.

Lemma volume_without_address_is_not_moved_witness :
  GetLocations Sample.noAddress 5 = ([], true)
  /\ doVolumeTierMove Sample.ReadableString Sample.noAddress 5 "ssd" true
       Sample.start
     = (emit (EvWriter (MsgCanNotFind "ssd" 5))
          (emit EvWait
             (sortLocations "ssd" (emit (EvGetLocations 5 true) Sample.start))),
        Returned None).
Proof.
  split; [reflexivity|].
  apply (volume_without_address_is_not_moved Sample.ReadableString
           Sample.noAddress 5 "ssd" true Sample.start).
  reflexivity.
Defined.

Lemma capacity_never_overcommitted_witness :
  let env := Sample.environment Sample.allSucceed in
  let fits := fun l => 0 <= capacityByFreeVolumeCount "ssd" (dataNode l) in
  Forall fits (allLocations Sample.start)
  /\ Forall fits
       (allLocations
          (doVolumeTierMove Sample.ReadableString env 1 "ssd" true
             Sample.start).1).
Proof.
  cbv zeta.
  assert (Forall
            (fun l => 0 <= capacityByFreeVolumeCount "ssd" (dataNode l))
            (allLocations Sample.start)) as Hfits.
  { repeat constructor; by vm_compute. }
  split; [exact Hfits|].
  exact (capacity_never_overcommitted Sample.ReadableString
           (Sample.environment Sample.allSucceed) 1 "ssd" true Sample.start
           Hfits).
Defined.

(** ** The selection, exactly *)

Section SelectionFacts.

Variable ToDiskType : string -> DiskType.
Variable Match : string -> string -> bool * option error.
Variable volumeSizeLimitMb : Z.
Variable sourceTier : DiskType.
Variable collectionPattern : string.
Variable fullPercentage : float.
Variable nowUnixSeconds : Z.

Local Abbreviation matchErrs := (matchErrs Match collectionPattern).
Local Abbreviation patternAccepts := (patternAccepts Match collectionPattern).
Local Abbreviation onSourceTier := (onSourceTier ToDiskType sourceTier).
Local Abbreviation isFull := (isFull volumeSizeLimitMb fullPercentage).
Local Abbreviation scanned := (scanned Match collectionPattern).
Local Abbreviation selectFor :=
  (collectVolumeIdsForTierChange ToDiskType Match volumeSizeLimitMb
     sourceTier collectionPattern fullPercentage).

Lemma matchErrs_false v :
  matchErrs v = false
  <-> (collectionPattern <> "" ->
       (Match collectionPattern (v_Collection v)).2 = None).
Proof.
  unfold_criteria.
  destruct (decide (collectionPattern <> "")) as [Hp|Hp].
  - rewrite (bool_decide_eq_true_2 _ Hp). cbn.
    destruct ((Match collectionPattern (v_Collection v)).2); naive_solver.
  - rewrite (bool_decide_eq_false_2 _ Hp). cbn. naive_solver.
Qed.

Lemma patternAccepts_true v :
  patternAccepts v = true
  <-> (collectionPattern <> "" ->
       Match collectionPattern (v_Collection v) = (true, None)).
Proof.
  unfold_criteria.
  destruct (decide (collectionPattern = "")) as [Hp|Hp].
  - rewrite (bool_decide_eq_true_2 _ Hp). cbn. naive_solver.
  - rewrite (bool_decide_eq_false_2 _ Hp). cbn.
    destruct (Match collectionPattern (v_Collection v)) as [[] []];
      naive_solver.
Qed.

Lemma scanned_reaches vs v :
  v ∈ scanned vs
  <-> exists pre post,
        vs = (pre ++ v :: post)%list
        /\ Forall (fun u => matchErrs u = false) (pre ++ [v]).
Proof.
  split.
  - intros Hv.
    destruct (scanned_prefix Match collectionPattern vs) as [post Hpost].
    pose proof (scanned_clean Match collectionPattern vs) as Hclean.
    apply list_elem_of_split in Hv as (pre & post' & Hsplit).
    exists pre, (post' ++ post)%list. split.
    + rewrite Hpost, Hsplit. by rewrite <- app_assoc.
    + rewrite Hsplit in Hclean.
      apply Forall_app in Hclean as [Hpre Hv].
      apply Forall_cons in Hv as [Hv _].
      apply Forall_app. split; [done|]. by constructor.
  - intros (pre & post & -> & Hclean).
    replace (pre ++ v :: post)%list with ((pre ++ [v]) ++ post)%list
      by (by rewrite <- app_assoc).
    rewrite scanned_app.
    assert (existsb matchErrs (pre ++ [v]) = false) as ->.
    { clear post. induction Hclean as [|u us Hu _ IH]; [done|].
      cbn. by rewrite Hu. }
    set_solver.
Qed.

(** X9: a volume id is returned exactly when the snapshot lists a replica
    of it that the scan of its data node reaches before the matcher has
    reported an error, and that passes all four checks: pattern, quiet
    time, tier and size.  One such replica is enough, whatever the other
    replicas of the id look like. *)
Theorem selection_is_exact quietPeriod topo vid :
  vid ∈ (selectFor quietPeriod nowUnixSeconds topo).1
  <-> exists dn pre v post,
        (exists d r, (d, r, dn) ∈ eachDataNode topo)
        /\ volumesOf dn = (pre ++ v :: post)%list
        /\ Forall (fun u => collectionPattern <> "" ->
                            (Match collectionPattern (v_Collection u)).2
                            = None) pre
        /\ v_Id v = vid
        /\ (collectionPattern <> "" ->
            Match collectionPattern (v_Collection v) = (true, None))
        /\ isQuiet quietPeriod nowUnixSeconds v = true
        /\ onSourceTier v = true
        /\ isFull v = true.
Proof.
  rewrite selected_iff. split.
  - intros (d & r & dn & v & Hdn & Hv & Hid & Hel).
    apply scanned_reaches in Hv as (pre & post & Hsplit & Hclean).
    apply Forall_app in Hclean as [Hpre _].
    exists dn, pre, v, post. split; [eauto|]. split; [done|].
    split; [eapply Forall_impl; [exact Hpre|]; intros u Hu; by apply matchErrs_false|].
    split; [done|].
    unfold_criteria_in Hel.
    apply andb_prop in Hel as [Hel Hfull].
    apply andb_prop in Hel as [Hel Htier].
    apply andb_prop in Hel as [Hpat Hquiet].
    split; [by apply patternAccepts_true|]. done.
  - intros (dn & pre & v & post & (d & r & Hdn) & Hsplit & Hpre & Hid
            & Hpat%patternAccepts_true & Hquiet & Htier & Hfull).
    assert (eligible ToDiskType Match volumeSizeLimitMb sourceTier
              collectionPattern fullPercentage quietPeriod nowUnixSeconds v
            = true) as Hel.
    { unfold_eligible. by rewrite Hpat, Hquiet, Htier, Hfull. }
    exists d, r, dn, v. split; [done|]. split; [|done].
    apply scanned_reaches. exists pre, post. split; [done|].
    apply Forall_app. split.
    + eapply Forall_impl; [exact Hpre|]. intros u Hu. by apply matchErrs_false.
    + constructor; [|done]. by eapply eligible_no_error.
Qed.

(** X10: growing the quiet period never adds a volume to the selection,
    as long as no modification time of the snapshot is so late that
    adding either period overflows. *)
Theorem longer_quiet_period_selects_fewer quiet1 quiet2 topo vid :
  quiet1 <= quiet2 ->
  timestampsFit quiet1 topo = true ->
  timestampsFit quiet2 topo = true ->
  vid ∈ (selectFor quiet2 nowUnixSeconds topo).1 ->
  vid ∈ (selectFor quiet1 nowUnixSeconds topo).1.
Proof.
  intros Hle Hfit1 Hfit2. rewrite !selected_iff.
  intros (d & r & dn & v & Hdn & Hv & Hid & Hel).
  exists d, r, dn, v. split; [done|]. split; [done|]. split; [done|].
  assert (inSnapshot topo dn v) as Hin.
  { split; [eauto|]. by eapply scanned_elem. }
  unfold eligible in Hel. unfold_eligible.
  apply andb_prop in Hel as [Hel ->].
  apply andb_prop in Hel as [Hel ->].
  apply andb_prop in Hel as [-> Hquiet].
  rewrite !andb_true_r. cbn.
  apply isQuiet_exact in Hquiet; [|by eapply timestampsFit_elim].
  apply isQuiet_exact; [by eapply timestampsFit_elim|].
  assert (quietSeconds quiet1 <= quietSeconds quiet2); [|lia].
  unfold quietSeconds. apply Z.quot_le_mono; lia.
Qed.

End SelectionFacts.

Section NoPattern.

Variable ToDiskType : string -> DiskType.
Variable volumeSizeLimitMb : Z.
Variable sourceTier : DiskType.
Variable fullPercentage : float.
Variable quietPeriod : Z.
Variable nowUnixSeconds : Z.

Local Abbreviation markIfEligible :=
  (markIfEligible ToDiskType volumeSizeLimitMb sourceTier fullPercentage
     quietPeriod nowUnixSeconds).
Local Abbreviation selectAll :=
  (fun Match =>
     collectVolumeIdsForTierChange ToDiskType Match volumeSizeLimitMb
       sourceTier "" fullPercentage quietPeriod nowUnixSeconds).

Lemma rangeVolumeInfos_no_pattern Match vs m :
  rangeVolumeInfos ToDiskType Match volumeSizeLimitMb sourceTier ""
    fullPercentage quietPeriod nowUnixSeconds vs m
  = (foldl (fun m v => markIfEligible v m) m vs, false).
Proof.
  revert m. induction vs as [|v rest IH]; intros m; [done|].
  cbn [rangeVolumeInfos foldl]. by rewrite decide_False by tauto.
Qed.

Lemma rangeDiskInfos_no_pattern Match ds m :
  rangeDiskInfos ToDiskType Match volumeSizeLimitMb sourceTier ""
    fullPercentage quietPeriod nowUnixSeconds ds m
  = (foldl (fun m v => markIfEligible v m) m (d ← ds; VolumeInfos d.2),
     false).
Proof.
  revert m. induction ds as [|[k d] rest IH]; intros m; [done|].
  step_rangeDiskInfos. rewrite rangeVolumeInfos_no_pattern, IH.
  by rewrite bind_cons, foldl_app.
Qed.

Lemma collectVidMap_no_pattern Match1 Match2 topo :
  collectVidMap ToDiskType Match1 volumeSizeLimitMb sourceTier ""
    fullPercentage quietPeriod nowUnixSeconds topo
  = collectVidMap ToDiskType Match2 volumeSizeLimitMb sourceTier ""
      fullPercentage quietPeriod nowUnixSeconds topo.
Proof.
  unfold collectVidMap. generalize (∅ : gmap Z bool).
  induction (eachDataNode topo) as [|[[d r] dn] nodes IH]; intros m;
    [done|].
  cbn [foldl]. unfold visitDataNode at 2 4.
  rewrite !rangeDiskInfos_no_pattern. apply IH.
Qed.

(** X11: with the empty pattern the matcher plays no part: the selection
    is the same whatever the matcher would answer, it never stops a node
    scan early, and an id is returned exactly when some replica of it in
    the snapshot passes the quiet-time, tier and size checks. *)
Theorem empty_pattern_ignores_matcher Match1 Match2 topo :
  selectAll Match1 topo = selectAll Match2 topo
  /\ forall vid,
       vid ∈ (selectAll Match1 topo).1
       <-> exists dn v,
             inSnapshot topo dn v /\ v_Id v = vid
             /\ isQuiet quietPeriod nowUnixSeconds v = true
             /\ onSourceTier ToDiskType sourceTier v = true
             /\ isFull volumeSizeLimitMb fullPercentage v = true.
Proof.
  split.
  - unfold collectVolumeIdsForTierChange.
    by rewrite (collectVidMap_no_pattern Match1 Match2).
  - intros vid. rewrite selected_iff.
    assert (forall vs, scanned Match1 "" vs = vs) as Hall.
    { intros vs. apply scanned_all, Forall_forall. intros u _.
      unfold matchErrs. rewrite bool_decide_eq_false_2; [done|].
      intros Hne. by apply Hne. }
    assert (forall v,
              eligible ToDiskType Match1 volumeSizeLimitMb sourceTier ""
                fullPercentage quietPeriod nowUnixSeconds v
              = isQuiet quietPeriod nowUnixSeconds v
                && onSourceTier ToDiskType sourceTier v
                && isFull volumeSizeLimitMb fullPercentage v) as Hel.
    { intros v. unfold eligible, patternAccepts.
      by rewrite bool_decide_eq_true_2. }
    split.
    + intros (d & r & dn & v & Hdn & Hv & Hid & Hok).
      rewrite Hall in Hv. rewrite Hel in Hok.
      apply andb_prop in Hok as [Hok Hfull].
      apply andb_prop in Hok as [Hquiet Htier].
      exists dn, v. split; [split; eauto|]. done.
    + intros (dn & v & [(d & r & Hdn) Hv] & Hid & Hquiet & Htier & Hfull).
      exists d, r, dn, v. rewrite Hall, Hel, Hquiet, Htier, Hfull. done.
Qed.

End NoPattern.

Lemma longer_quiet_period_selects_fewer_witness :
  Sample.hour <= 2 * Sample.hour
  /\ 7 ∈ (collectVolumeIdsForTierChange Sample.ToDiskType Sample.Match
            30000 "" "" 95 Sample.hour Sample.now Sample.twoReplicas).1.
Proof.
  assert (Sample.hour <= 2 * Sample.hour) as Hle by (by vm_compute).
  split; [exact Hle|].
  apply (longer_quiet_period_selects_fewer Sample.ToDiskType Sample.Match
           30000 "" "" 95 Sample.now Sample.hour (2 * Sample.hour)
           Sample.twoReplicas 7 Hle).
  - reflexivity.
  - reflexivity.
  - assert ((collectVolumeIdsForTierChange Sample.ToDiskType Sample.Match
               30000 "" "" 95 (2 * Sample.hour) Sample.now
               Sample.twoReplicas).1 = [7]) as -> by reflexivity.
    apply list_elem_of_singleton. reflexivity.
Defined.

(** ** The whole run, volume by volume *)

Lemma bumped_incr toDiskType l l' :
  bumped toDiskType l l' ->
  incrVolumeCount toDiskType (DiskInfos (dataNode l))
  = Some (DiskInfos (dataNode l')).
Proof.
  intros (_ & _ & _ & before & d & after & -> & Hfresh & ->).
  induction before as [|[k d'] before IH]; cbn [app]; step_incr.
  - by rewrite decide_True.
  - rewrite decide_False by set_solver. rewrite IH by set_solver. done.
Qed.

(** There is one way to bump a location. *)
Lemma bumped_unique toDiskType l l1 l2 :
  bumped toDiskType l l1 -> bumped toDiskType l l2 -> l1 = l2.
Proof.
  intros H1 H2.
  pose proof (bumped_incr _ _ _ H1) as E1.
  pose proof (bumped_incr _ _ _ H2) as E2.
  destruct H1 as (Hdc1 & Hrack1 & Hid1 & _).
  destruct H2 as (Hdc2 & Hrack2 & Hid2 & _).
  destruct l1 as [dc1 rack1 [id1 ds1]], l2 as [dc2 rack2 [id2 ds2]].
  cbn in *. congruence.
Qed.

Section MovesInOrder.

Variable ReadableString : DiskType -> string.
Variable env : CommandEnv.

Local Abbreviation doVolumeTierMove := (doVolumeTierMove ReadableString env).
Local Abbreviation rangeVolumeIds := (rangeVolumeIds ReadableString env).
Local Abbreviation dispatched := (dispatched ReadableString).

(** The loop of [Do] with no server active at its start. *)
Lemma rangeVolumeIds_idle volumeIds toDiskType applyChange w :
  activeServers w = ∅ ->
  exists w' delta,
    rangeVolumeIds volumeIds toDiskType applyChange w = (w', Returned None)
    /\ activeServers w' = ∅
    /\ log w' = (log w ++ delta)%list
    /\ lookupsOf delta
       = (fun vid => (vid, (GetLocations env vid).2)) <$> volumeIds
    /\ foldl flightStep (Some false) delta = Some false.
Proof.
  revert w. induction volumeIds as [|vid rest IH]; intros w Hidle.
  - exists w, []. by rewrite app_nil_r.
  - step_rangeVolumeIds.
    destruct (doVolumeTierMove_returns ReadableString env vid toDiskType
                applyChange w Hidle) as (w1 & Hrun & Hidle1 & _).
    destruct (doVolumeTierMove_shape ReadableString env vid toDiskType
                applyChange w) as (d1 & Hlog1 & Hlook1 & Hflight1 & _).
    rewrite Hrun in Hlog1. rewrite Hrun. cbn [fst] in Hlog1.
    destruct ((GetLocations env vid).2) eqn:Hfound.
    + destruct (IH w1 Hidle1) as (w' & d2 & -> & Hidle' & Hlog' & Hlook' & Hfl').
      exists w', (EvGetLocations vid true :: d1 ++ d2)%list.
      split; [done|]. split; [done|]. split.
      { rewrite Hlog', Hlog1, <- app_assoc. done. }
      split.
      { change (lookupsOf ([EvGetLocations vid true] ++ d1 ++ d2)
                = (vid, (GetLocations env vid).2)
                  :: ((fun vid => (vid, (GetLocations env vid).2)) <$> rest)).
        rewrite !lookupsOf_app, Hlook1, Hlook', Hfound. done. }
      cbn. by rewrite foldl_app, Hflight1.
    + set (report := EvStdout (MsgTierMoveVolume vid (ErrVolumeNotFound vid))).
      destruct (IH (emit report w1) Hidle1)
        as (w' & d2 & -> & Hidle' & Hlog' & Hlook' & Hfl').
      exists w', (EvGetLocations vid false :: d1 ++ report :: d2)%list.
      split; [done|]. split; [done|]. split.
      { rewrite Hlog'. cbn. rewrite Hlog1, <- !app_assoc. done. }
      split.
      { change (lookupsOf ([EvGetLocations vid false] ++ d1 ++ [report] ++ d2)
                = (vid, (GetLocations env vid).2)
                  :: ((fun vid => (vid, (GetLocations env vid).2)) <$> rest)).
        rewrite !lookupsOf_app, Hlook1, Hlook', Hfound. done. }
      cbn. rewrite foldl_app, Hflight1. done.
Qed.

(** The loop of [Do] in a dry run. *)
Lemma rangeVolumeIds_dry volumeIds toDiskType w :
  exists delta,
    log (rangeVolumeIds volumeIds toDiskType false w).1 = (log w ++ delta)%list
    /\ Forall (fun ev => isMutating ev = false) delta.
Proof.
  revert w. induction volumeIds as [|vid rest IH]; intros w.
  - exists []. by rewrite app_nil_r.
  - step_rangeVolumeIds.
    destruct (doVolumeTierMove_dry_effects ReadableString env vid toDiskType w)
      as (d1 & Hlog1 & Hpure1 & _ & err & Hret).
    destruct (doVolumeTierMove vid toDiskType false w) as [w1 out].
    cbn [fst snd] in *. subst out.
    set (w2 := match err with
               | Some e => emit (EvStdout (MsgTierMoveVolume vid e)) w1
               | None => w1
               end).
    destruct (IH w2) as (d2 & Hlog2 & Hpure2).
    destruct err as [e|]; subst w2.
    + exists (d1 ++ EvStdout (MsgTierMoveVolume vid e) :: d2)%list. split.
      { rewrite Hlog2. cbn. rewrite Hlog1, <- !app_assoc. done. }
      apply Forall_app. split; [done|]. by constructor.
    + exists (d1 ++ d2)%list. split.
      { rewrite Hlog2, Hlog1, <- app_assoc. done. }
      by apply Forall_app.
Qed.

(** One volume, planned and moved. *)
Lemma doVolumeTierMove_same_plan vid toDiskType wd wa :
  (forall history c,
     rpcResult env history c <> None -> exists v u, c = DeleteVolume v u) ->
  allLocations wd = allLocations wa ->
  activeServers wa = ∅ ->
  exists wd' wa' err dd da,
    doVolumeTierMove vid toDiskType false wd = (wd', Returned err)
    /\ doVolumeTierMove vid toDiskType true wa = (wa', Returned err)
    /\ allLocations wd' = allLocations wa'
    /\ activeServers wa' = ∅
    /\ log wd' = (log wd ++ dd)%list
    /\ log wa' = (log wa ++ da)%list
    /\ announcementsOf dd = announcementsOf da.
Proof.
  intros Hok Hsame Hidle.
  destruct (GetLocations env vid) as [locations [|]] eqn:Hloc.
  2:{ rewrite !(doVolumeTierMove_not_found ReadableString env _ _ _ _ _ Hloc).
      eexists _, _, _, [EvGetLocations vid false], [EvGetLocations vid false].
      split; [reflexivity|]. split; [reflexivity|]. by repeat split. }
  destruct (first_viable toDiskType locations
              (keepDataNodesSorted (allLocations wd) toDiskType))
    as [Hnone|(pre & dst & post & Hsplit & Hpre & Hdst)].
  { rewrite (doVolumeTierMove_no_target ReadableString env _ _ _ _ _
               Hloc Hnone).
    rewrite Hsame in Hnone.
    rewrite (doVolumeTierMove_no_target ReadableString env _ _ _ _ _
               Hloc Hnone).
    set (lines := [EvGetLocations vid true; EvWait;
                   EvWriter (MsgCanNotFind (ReadableString toDiskType) vid)]).
    eexists _, _, None, lines, lines.
    split; [reflexivity|]. split; [reflexivity|]. cbn. rewrite Hsame.
    split; [done|]. split; [done|].
    split; [by rewrite <- !app_assoc|]. split; [by rewrite <- !app_assoc|].
    done. }
  destruct (doVolumeTierMove_dry ReadableString env _ _ _ _ _ _ _
              Hloc Hsplit Hpre Hdst) as (dst' & Hbump & ->).
  rewrite Hsame in Hsplit.
  rewrite (doVolumeTierMove_apply ReadableString env _ _ _ _ _ _ _
             Hloc Hsplit Hpre Hdst).
  set (dstId := dn_Id (dataNode dst)).
  set (source := pickSource dstId locations).
  rewrite decide_False by (rewrite Hidle; set_solver).
  destruct (viable_elim _ _ _ Hdst) as (Hcap & _ & Hpick).
  apply free_capacity_has_disk in Hcap as [d Hd].
  destruct locations as [|loc0 rest]; [done|].
  assert (allLocations (dispatched vid toDiskType source dstId wa)
          !! length pre = Some dst) as Hl.
  { rewrite dispatched_locations, Hsplit. by apply list_lookup_middle. }
  destruct (runTask_shape ReadableString env vid toDiskType loc0 rest source
              (length pre) (dispatched vid toDiskType source dstId wa)
              dst d Hl Hd)
    as [(e & Hmark & _)|[(e & _ & Hcopy & _)
                        |(_ & l' & evs & Hbump' & Htrace & ->)]].
  { destruct (Hok _ _ ltac:(by rewrite Hmark)) as (v & u & [=]). }
  { destruct (Hok _ _ ltac:(by rewrite Hcopy)) as (v & u & [=]). }
  rewrite (bumped_unique _ _ _ _ Hbump' Hbump).
  eexists _, _, None,
    [EvGetLocations vid true;
     EvWriter (MsgMoving vid source dstId (ReadableString toDiskType));
     EvWait],
    (EvGetLocations vid true
     :: EvWriter (MsgMoving vid source dstId (ReadableString toDiskType))
     :: EvGo vid source dstId
     :: EvRpc (MarkVolumeReadonly vid (loc0 :: rest)) None
     :: EvRpc (LiveMoveVolume vid source dstId 5000000000
                 (ReadableString toDiskType) true) None
     :: evs ++ [EvDone vid; EvWait])%list.
  split; [done|]. split; [done|].
  cbn [allLocations activeServers log emit].
  split.
  { rewrite dispatched_locations, Hsplit.
    replace (length pre) with (length pre + 0)%nat by lia.
    by rewrite insert_app_r. }
  split; [cbn; fold dstId; rewrite Hidle; set_solver|].
  split; [done|]. split.
  { cbn. rewrite <- !app_assoc. cbn. by rewrite <- ?app_assoc. }
  unfold announcementsOf. cbn. rewrite List.filter_app.
  fold (announcementsOf evs).
  by rewrite (cleanupTrace_announces_nothing _ _ _ _ _ Htrace).
Qed.

Lemma rangeVolumeIds_same_plan volumeIds toDiskType wd wa :
  (forall history c,
     rpcResult env history c <> None -> exists v u, c = DeleteVolume v u) ->
  allLocations wd = allLocations wa ->
  activeServers wa = ∅ ->
  exists wd' wa' dd da,
    rangeVolumeIds volumeIds toDiskType false wd = (wd', Returned None)
    /\ rangeVolumeIds volumeIds toDiskType true wa = (wa', Returned None)
    /\ allLocations wd' = allLocations wa'
    /\ log wd' = (log wd ++ dd)%list
    /\ log wa' = (log wa ++ da)%list
    /\ announcementsOf dd = announcementsOf da.
Proof.
  intros Hok. revert wd wa.
  induction volumeIds as [|vid rest IH]; intros wd wa Hsame Hidle.
  - exists wd, wa, [], []. by rewrite !app_nil_r.
  - step_rangeVolumeIds.
    destruct (doVolumeTierMove_same_plan vid toDiskType wd wa Hok Hsame Hidle)
      as (wd1 & wa1 & err & dd1 & da1 & -> & -> & Hsame1 & Hidle1
          & Hlogd1 & Hloga1 & Hplan1).
    destruct err as [e|].
    + set (report := EvStdout (MsgTierMoveVolume vid e)).
      destruct (IH (emit report wd1) (emit report wa1) Hsame1 Hidle1)
        as (wd' & wa' & dd2 & da2 & -> & -> & Hsame' & Hlogd' & Hloga'
            & Hplan').
      exists wd', wa', (dd1 ++ report :: dd2)%list,
        (da1 ++ report :: da2)%list.
      split; [done|]. split; [done|]. split; [done|].
      split; [rewrite Hlogd'; cbn; by rewrite Hlogd1, <- !app_assoc|].
      split; [rewrite Hloga'; cbn; by rewrite Hloga1, <- !app_assoc|].
      unfold announcementsOf in *. rewrite !List.filter_app. cbn.
      by rewrite Hplan1, Hplan'.
    + destruct (IH wd1 wa1 Hsame1 Hidle1)
        as (wd' & wa' & dd2 & da2 & -> & -> & Hsame' & Hlogd' & Hloga'
            & Hplan').
      exists wd', wa', (dd1 ++ dd2)%list, (da1 ++ da2)%list.
      split; [done|]. split; [done|]. split; [done|].
      split; [by rewrite Hlogd', Hlogd1, <- app_assoc|].
      split; [by rewrite Hloga', Hloga1, <- app_assoc|].
      unfold announcementsOf in *. rewrite !List.filter_app.
      by rewrite Hplan1, Hplan'.
Qed.

(** X12: a dry run predicts the real one.  When no server is active at
    the start and every read-only mark and every copy succeeds (deletes
    may fail), the loop of [Do] with and without changes applied prints
    the same moves and the same [can not find] lines, in the same order,
    and ends with the same volume counts on every data node. *)
Theorem dry_run_predicts_real_run volumeIds toDiskType w :
  activeServers w = ∅ ->
  (forall history c,
     rpcResult env history c <> None -> exists v u, c = DeleteVolume v u) ->
  let dry := rangeVolumeIds volumeIds toDiskType false w in
  let real := rangeVolumeIds volumeIds toDiskType true w in
  dry.2 = real.2
  /\ allLocations dry.1 = allLocations real.1
  /\ announcementsOf (log dry.1) = announcementsOf (log real.1).
Proof.
  intros Hidle Hok dry real. subst dry real.
  destruct (rangeVolumeIds_same_plan volumeIds toDiskType w w Hok eq_refl
              Hidle)
    as (wd' & wa' & dd & da & -> & -> & Hsame & Hlogd & Hloga & Hplan).
  split; [done|]. split; [done|]. cbn [fst].
  rewrite Hlogd, Hloga. unfold announcementsOf in *.
  by rewrite !List.filter_app, Hplan.
Qed.

End MovesInOrder.

Section WholeRun.

Variable ToDiskType : string -> DiskType.
Variable ReadableString : DiskType -> string.
Variable Match : string -> string -> bool * option error.
Variable Parse : list string -> error + Flags.
Variable env : CommandEnv.

Local Abbreviation rangeVolumeIds := (rangeVolumeIds ReadableString env).
Local Abbreviation Do := (Do ToDiskType ReadableString Match Parse env).
Local Abbreviation selected :=
  (fun flags topologyInfo volumeSizeLimitMb =>
     (collectVolumeIdsForTierChange ToDiskType Match volumeSizeLimitMb
        (ToDiskType (flag_fromDiskType flags))
        (flag_collectionPattern flags) (flag_fullPercent flags)
        (flag_quietFor flags) (timeNowUnix env) topologyInfo).1).

(** The ways through the set-up of [Do]. *)
Lemma Do_cases args :
  (exists err,
     Do args
     = ({| allLocations := []; activeServers := ∅; log := [] |}, Returned err))
  \/ exists flags topologyInfo volumeSizeLimitMb,
       confirmIsLocked env = None
       /\ Parse args = inr flags
       /\ ToDiskType (flag_fromDiskType flags)
          <> ToDiskType (flag_toDiskType flags)
       /\ collectTopologyInfo env = inr (topologyInfo, volumeSizeLimitMb)
       /\ Do args
          = rangeVolumeIds (selected flags topologyInfo volumeSizeLimitMb)
              (ToDiskType (flag_toDiskType flags)) (flag_force flags)
              {| allLocations := collectVolumeReplicaLocations topologyInfo;
                 activeServers := ∅;
                 log := [EvStdout
                           (MsgCollect (ToDiskType (flag_fromDiskType flags))
                              (quietSeconds (flag_quietFor flags)));
                         EvStdout
                           (MsgTierMoveVolumes
                              (selected flags topologyInfo
                                 volumeSizeLimitMb))] |}.
Proof.
  unfold_Do.
  destruct (confirmIsLocked env) as [e|] eqn:Hlock; [left; eauto|].
  destruct (Parse args) as [e|flags] eqn:Hparse; [left; eauto|].
  destruct (decide (ToDiskType (flag_fromDiskType flags)
                    = ToDiskType (flag_toDiskType flags))) as [Hsame|Hne];
    [left; eauto|].
  destruct (collectTopologyInfo env) as [e|[topologyInfo volumeSizeLimitMb]]
    eqn:Htopo; [left; eauto|].
  right. exists flags, topologyInfo, volumeSizeLimitMb.
  do 4 (split; [done|]). reflexivity.
Qed.

(** X13: whatever the arguments, the cluster and the answers of the
    servers, [Do] returns: it never waits for a busy server and never
    runs into the panics its indexing could raise.  It leaves no server
    marked active, and at no point of the run is more than one goroutine
    alive: each one has reached its [wg.Done()] before the next volume
    is looked up. *)
Theorem run_is_sequential args :
  exists err,
    (Do args).2 = Returned err
    /\ activeServers (Do args).1 = ∅
    /\ inFlight (log (Do args).1) = Some false.
Proof.
  destruct (Do_cases args)
    as [[err ->]|(flags & topo & limit & _ & _ & _ & _ & ->)].
  - by exists err.
  - match goal with |- context [rangeVolumeIds ?vids ?t ?a ?w] =>
      destruct (rangeVolumeIds_idle ReadableString env vids t a w eq_refl)
        as (w' & delta & -> & Hidle & Hlog & _ & Hflight) end.
    exists None. split; [done|]. split; [done|].
    cbn [fst]. rewrite Hlog. unfold inFlight. cbn [log].
    by rewrite foldl_app.
Qed.

(** X14: once the set-up has passed, the master is asked for the
    locations of every selected volume exactly once, in the order of the
    selection, whatever happens to the moves in between. *)
Theorem each_candidate_looked_up_once
    args flags topologyInfo volumeSizeLimitMb :
  confirmIsLocked env = None ->
  Parse args = inr flags ->
  ToDiskType (flag_fromDiskType flags) <> ToDiskType (flag_toDiskType flags) ->
  collectTopologyInfo env = inr (topologyInfo, volumeSizeLimitMb) ->
  lookupsOf (log (Do args).1)
  = (fun vid => (vid, (GetLocations env vid).2))
      <$> selected flags topologyInfo volumeSizeLimitMb.
Proof.
  intros Hlock Hparse Hne Htopo.
  destruct (Do_cases args)
    as [[err Hrun]|(flags' & topo' & limit' & _ & Hparse' & _ & Htopo' & ->)].
  - revert Hrun. unfold_Do. rewrite Hlock, Hparse, decide_False, Htopo by done.
    unfold collectVolumeIdsForTierChange.
    match goal with |- context [rangeVolumeIds ?vids ?t ?a ?w] =>
      destruct (rangeVolumeIds_idle ReadableString env vids t a w eq_refl)
        as (w' & delta & -> & _ & Hlog & _) end.
    intros [= Hw' _]. rewrite Hw' in Hlog. cbn in Hlog.
    by destruct delta.
  - rewrite Hparse in Hparse'. injection Hparse' as <-.
    rewrite Htopo in Htopo'. injection Htopo' as <- <-.
    match goal with |- context [rangeVolumeIds ?vids ?t ?a ?w] =>
      destruct (rangeVolumeIds_idle ReadableString env vids t a w eq_refl)
        as (w' & delta & -> & _ & Hlog & Hlook & _) end.
    cbn [fst]. rewrite Hlog. cbn [log].
    by rewrite lookupsOf_app, Hlook.
Qed.

(** X15: without [-force] the whole run issues no call to a volume
    server and starts no goroutine, however many volumes are selected. *)
Theorem dry_run_issues_no_call args flags :
  Parse args = inr flags ->
  flag_force flags = false ->
  Forall (fun ev => isMutating ev = false) (log (Do args).1).
Proof.
  intros Hparse Hdry.
  destruct (Do_cases args)
    as [[err ->]|(flags' & topo & limit & _ & Hparse' & _ & _ & ->)];
    [by constructor|].
  rewrite Hparse in Hparse'. injection Hparse' as <-. rewrite Hdry.
  match goal with |- context [rangeVolumeIds ?vids ?t false ?w] =>
    destruct (rangeVolumeIds_dry ReadableString env vids t w) as (delta & -> & Hpure) end.
  cbn [log]. apply Forall_app. split; [|done]. by repeat constructor.
Qed.

End WholeRun.

Lemma each_candidate_looked_up_once_witness :
  lookupsOf (log (Sample.run true Sample.allSucceed).1)
  = [(2, true); (1, true)].
Proof.
  apply (each_candidate_looked_up_once Sample.ToDiskType Sample.ReadableString
           Sample.Match (fun _ => inr (Sample.flags true))
           (Sample.environment Sample.allSucceed) [] (Sample.flags true)
           Sample.cluster 30000).
  - reflexivity.
  - reflexivity.
  - intros Hsame. vm_compute in Hsame. discriminate Hsame.
  - reflexivity.
Defined.

Lemma dry_run_issues_no_call_witness :
  flag_force (Sample.flags false) = false
  /\ Forall (fun ev => isMutating ev = false)
       (log (Sample.run false Sample.allSucceed).1).
Proof.
  split; [reflexivity|].
  apply (dry_run_issues_no_call Sample.ToDiskType Sample.ReadableString
           Sample.Match (fun _ => inr (Sample.flags false))
           (Sample.environment Sample.allSucceed) [] (Sample.flags false)).
  - reflexivity.
  - reflexivity.
Defined.

Lemma dry_run_predicts_real_run_witness :
  let env := Sample.environment (Sample.deleteFails "a") in
  let dry :=
    rangeVolumeIds Sample.ReadableString env [1; 2] "ssd" false Sample.start in
  let real :=
    rangeVolumeIds Sample.ReadableString env [1; 2] "ssd" true Sample.start in
  rpcResult env [] (DeleteVolume 1 "a") = Some (ErrExternal "connection refused")
  /\ dry.2 = real.2
  /\ allLocations dry.1 = allLocations real.1
  /\ announcementsOf (log dry.1) = announcementsOf (log real.1).
Proof.
  cbv zeta. split; [reflexivity|].
  apply (dry_run_predicts_real_run Sample.ReadableString
           (Sample.environment (Sample.deleteFails "a")) [1; 2] "ssd"
           Sample.start).
  - reflexivity.
  - intros history c Hfails. destruct c as [v ls|v s t i d k|v u].
    + by destruct Hfails.
    + by destruct Hfails.
    + by exists v, u.
Defined.
